(** * Image references, the directory transport and the registry endpoint
      fallback loop

    A shallow embedding of
    - [directory/directory_transport.go]: the [dir] transport, its references
      and the on-disk layout helpers;
    - the [inspect] command's [getData] endpoint fallback loop and
      [newManifestFetcher];
    - the [docker] transport as far as its test file pins it down.

    Go strings are [string], Go [int] is [Z] with the 64-bit wrap-around
    written out, the [error] interface is an inductive type whose
    constructors are the dynamic types the code distinguishes. *)

From Stdlib Require Import ZArith List String Ascii Bool Lia.
From Stdlib Require Import Numbers.DecimalString Numbers.DecimalPos
  Numbers.DecimalZ.
Import ListNotations.

Local Open Scope list_scope.
Local Open Scope string_scope.

(* ------------------------------------------------------------------ *)
(** ** Go prelude: errors, [strings], [fmt] *)

Module Go.

(** A value of the [error] interface: [errNil] is the nil interface value,
    the other constructors are dynamic types.  [errorString] stands for what
    [fmt.Errorf] and [errors.New] build, and for every dynamic type the code
    never tests for. *)
Inductive error : Type :=
| errNil
| errorString (s : string)
| ErrNoSupport (Err : error)                       (* registry.ErrNoSupport *)
| fallbackError (err : error) (confirmedV2 : bool) (* inspect's wrapper *).

(** [err == nil] *)
Definition is_nil (e : error) : bool :=
  match e with errNil => true | _ => false end.

(** [_, ok := err.(registry.ErrNoSupport)]: a test on the dynamic type of
    the interface value itself, not of anything it wraps. *)
Definition is_ErrNoSupport (e : error) : bool :=
  match e with ErrNoSupport _ => true | _ => false end.

(** [s[n:]] for [n <= len(s)] *)
Fixpoint drop (n : nat) (s : string) : string :=
  match n, s with
  | O, _ => s
  | S n', String _ s' => drop n' s'
  | S _, EmptyString => EmptyString
  end.

(** [strings.HasPrefix] *)
Definition HasPrefix (s pre : string) : bool := String.prefix pre s.

(** [strings.TrimPrefix] *)
Definition TrimPrefix (s pre : string) : string :=
  if HasPrefix s pre then drop (String.length pre) s else s.

(** [strings.Join(elems, "/")] *)
Fixpoint JoinSlash (elems : list string) : string :=
  match elems with
  | [] => ""
  | [x] => x
  | x :: rest => x ++ "/" ++ JoinSlash rest
  end.

(** the [%d] verb of [fmt] on an integer *)
Definition fmt_d (z : Z) : string := NilZero.string_of_int (Z.to_int z).

(** Go's [int] on the 64-bit platforms: the value of an arithmetic result
    after wrap-around. *)
Definition wrap_int (z : Z) : Z :=
  (z + 2 ^ 63) mod 2 ^ 64 - 2 ^ 63.

Definition in_int (z : Z) : Prop := (- 2 ^ 63 <= z < 2 ^ 63)%Z.

(** [s] cut at the first [c]: what is before it and what is after it. *)
Fixpoint cut_first (c : ascii) (s : string) : option (string * string) :=
  match s with
  | EmptyString => None
  | String a rest =>
      if Ascii.eqb a c then Some ("", rest)
      else match cut_first c rest with
           | Some (l, r) => Some (String a l, r)
           | None => None
           end
  end.

(** [s] cut at the last [c]. *)
Fixpoint cut_last (c : ascii) (s : string) : option (string * string) :=
  match s with
  | EmptyString => None
  | String a rest =>
      match cut_last c rest with
      | Some (l, r) => Some (String a l, r)
      | None => if Ascii.eqb a c then Some ("", rest) else None
      end
  end.

(** [strings.ContainsRune] *)
Fixpoint contains (c : ascii) (s : string) : bool :=
  match s with
  | EmptyString => false
  | String a rest => Ascii.eqb a c || contains c rest
  end.

(** [strings.LastIndex(s, sep)] for a separator of one byte: the index of
    its last occurrence, -1 when there is none. *)
Definition LastIndex (s : string) (c : ascii) : Z :=
  match cut_last c s with
  | Some (before, _) => Z.of_nat (String.length before)
  | None => (-1)%Z
  end.

(** [s[:n]] for [n <= len(s)] *)
Definition take (n : nat) (s : string) : string := substring 0 n s.

(** the double-quote character *)
Definition dquote : string := String (ascii_of_nat 34) "".

End Go.

(* ------------------------------------------------------------------ *)
(** ** [path/filepath] on Unix *)

Module Filepath.

(** The path elements of [s]: the pieces between separators, empty ones
    included. *)
Fixpoint elements (s : string) : list string :=
  match s with
  | EmptyString => [""]
  | String c rest =>
      if Ascii.eqb c "/" then "" :: elements rest
      else match elements rest with
           | [] => [String c ""]
           | e :: es => String c e :: es
           end
  end.

(** One path element processed by [Clean]; [out] holds the elements written
    so far, the last one first.  An empty element and [.] are dropped; [..]
    removes the last real element, is kept in front of a path that is not
    rooted, and is dropped at the root. *)
Definition clean_element (rooted : bool) (out : list string) (e : string)
  : list string :=
  if (e =? "")%string then out
  else if (e =? ".")%string then out
  else if (e =? "..")%string then
    match out with
    | top :: below =>
        if (top =? "..")%string
        then (if rooted then out else ".." :: out)
        else below
    | [] => if rooted then [] else [".."]
    end
  else e :: out.

(** A real path element: not empty, not [.] or [..], no separator in it. *)
Definition real_element (e : string) : bool :=
  negb (e =? "")%string && negb (e =? ".")%string && negb (e =? "..")%string
  && negb (Go.contains "/" e).

Definition rooted (path : string) : bool :=
  match path with
  | String c _ => Ascii.eqb c "/"
  | EmptyString => false
  end.

Definition render (is_rooted : bool) (out : list string) : string :=
  let body := Go.JoinSlash (rev out) in
  if is_rooted then "/" ++ body
  else if (body =? "")%string then "." else body.

(** Modelled from the spec: [filepath.Clean] of the Go standard library,
    which is not part of the sources; the spec only names it
    ([Clean]-normalized path), the rules are those of the library's
    documentation: multiple separators become one, [.] elements go, an
    inner [..] goes with the element before it, [..] elements that begin a
    rooted path go, and the empty result is [.]. *)
Definition Clean (path : string) : string :=
  if (path =? "")%string then "."
  else render (rooted path)
              (fold_left (clean_element (rooted path)) (elements path) []).

(** Modelled from the spec: [filepath.Join] of the Go standard library:
    leading empty elements are ignored, the rest is joined with the
    separator and cleaned; all elements empty gives the empty string. *)
Fixpoint Join (elem : list string) : string :=
  match elem with
  | [] => ""
  | e :: rest =>
      if (e =? "")%string then Join rest
      else Clean (Go.JoinSlash elem)
  end.

End Filepath.

(* ------------------------------------------------------------------ *)
(** ** [directory/directory_transport.go] *)

Module Directory.
Import Go.

(** [dirReference] *)
Record dirReference : Type := mkDirReference {
  path : string;          (* as specified by the user *)
  resolvedPath : string   (* absolute, no symlinks when it was created *)
}.

(** [dirTransport.Name] *)
Definition Name : string := "dir".

(** [dirTransport.ValidatePolicyConfigurationScope] *)
Definition ValidatePolicyConfigurationScope (scope : string) : error :=
  if negb (HasPrefix scope "/") then
    errorString ("Invalid scope " ++ scope ++ ": Must be an absolute path")
  else if (scope =? "/")%string then
    errorString ("Invalid scope " ++ dquote ++ "/" ++ dquote
                 ++ ": Use the generic default scope " ++ dquote ++ dquote)
  else
    let cleaned := Filepath.Clean scope in
    if negb (cleaned =? scope)%string then
      errorString ("Invalid scope " ++ scope
                   ++ ": Uses non-canonical format, perhaps try " ++ cleaned)
    else errNil.

Section WithFilesystem.

(** The state of the filesystem and of the working directory, which
    [explicitfilepath.ResolvePathToFullyExplicit] reads.  The function is not
    part of the sources; it is a parameter here. *)
Variable FS : Type.
Variable ResolvePathToFullyExplicit : FS -> string -> string * error.

(** [NewReference] *)
Definition NewReference (fs : FS) (p : string) : option dirReference * error :=
  let '(resolved, err) := ResolvePathToFullyExplicit fs p in
  if negb (is_nil err) then (None, err)
  else (Some (mkDirReference p resolved), errNil).

(** [dirTransport.ParseReference] *)
Definition ParseReference (fs : FS) (reference : string)
  : option dirReference * error :=
  NewReference fs reference.

End WithFilesystem.

(** [dirReference.StringWithinTransport] *)
Definition StringWithinTransport (ref : dirReference) : string := path ref.

(** [dirReference.PolicyConfigurationIdentity] *)
Definition PolicyConfigurationIdentity (ref : dirReference) : string :=
  resolvedPath ref.

(** The loop of [PolicyConfigurationNamespaces]: [path] and [res] are its
    two variables; every turn of the loop costs one unit of [fuel]. *)
Fixpoint namespaces_loop (fuel : nat) (path : string) (res : list string)
  : option (list string) :=
  match fuel with
  | O => None
  | S fuel' =>
      let lastSlash := LastIndex path "/" in
      if (lastSlash =? -1)%Z || (lastSlash =? 0)%Z then Some res
      else
        let path' := take (Z.to_nat lastSlash) path in
        namespaces_loop fuel' path' (res ++ [path'])%list
  end.

(** [dirReference.PolicyConfigurationNamespaces]; the path gets shorter in
    every turn, so its length and one are fuel enough. *)
Definition PolicyConfigurationNamespaces (ref : dirReference)
  : option (list string) :=
  namespaces_loop (S (String.length (resolvedPath ref))) (resolvedPath ref)
    [].

(** The spec's words: a digest without its algorithm prefix.  A digest is
    [algorithm:hex]; the prefix ends with the first colon. *)
Definition digest_without_algorithm_prefix (digest : string) : string :=
  match cut_first ":" digest with
  | Some (_, hex) => hex
  | None => digest
  end.

(** [dirReference.manifestPath] *)
Definition manifestPath (ref : dirReference) : string :=
  Filepath.Join [path ref; "manifest.json"].

(** [dirReference.layerPath] *)
Definition layerPath (ref : dirReference) (digest : string) : string :=
  Filepath.Join [path ref; TrimPrefix digest "sha256:" ++ ".tar"].

(** [dirReference.signaturePath]; [index] is a Go [int]. *)
Definition signaturePath (ref : dirReference) (index : Z) : string :=
  Filepath.Join [path ref; "signature-" ++ fmt_d (wrap_int (index + 1))].

(** The namespaces one after the other: each is a prefix of the one before
    it, [prev] for the first, and shorter than it. *)
Fixpoint descending (prev : string) (l : list string) : Prop :=
  match l with
  | [] => True
  | ns :: rest =>
      HasPrefix prev ns = true
      /\ (String.length ns < String.length prev)%nat
      /\ descending ns rest
  end.

(** The proper ancestors of the rooted path whose elements, the last one
    first, are [rev_elems]: the nearest ancestor first, the root left out. *)
Fixpoint ancestors (rev_elems : list string) : list string :=
  match rev_elems with
  | [] => []
  | _ :: above =>
      match above with
      | [] => []
      | _ :: _ => ("/" ++ JoinSlash (rev above)) :: ancestors above
      end
  end.

End Directory.

(* ------------------------------------------------------------------ *)
(** ** The [inspect] command: [getData] and [newManifestFetcher] *)

Module Inspect.
Import Go.

(** [registry.APIVersion] is an [int]; [APIVersionUnknown], [APIVersion1]
    and [APIVersion2] are 0, 1 and 2. *)
Definition APIVersion : Type := Z.
Definition APIVersionUnknown : APIVersion := 0%Z.
Definition APIVersion1 : APIVersion := 1%Z.
Definition APIVersion2 : APIVersion := 2%Z.

(** [registry.APIEndpoint], the fields [getData] reads. *)
Record APIEndpoint : Type := mkAPIEndpoint {
  URL : string;
  Version : APIVersion
}.

(** [types.AuthConfig] as [getAuthConfig] fills it. *)
Record AuthConfig : Type := mkAuthConfig {
  Username : string;
  Password : string;
  Email : string
}.

(** [imageInspect]; the two [*containerTypes.Config] fields are left out. *)
Record imageInspect : Type := mkImageInspect {
  V1ID : string;
  RepoTags : list string;
  RepoDigests : list string;
  Parent : string;
  Comment : string;
  Created : string;
  Container : string;
  DockerVersion : string;
  Author : string;
  Architecture : string;
  Os : string;
  Size : Z;
  Registry : string
}.

(** [context.Context], as far as the loop looks at it: whether a receive
    from [ctx.Done()] is ready when the [select] of iteration [i] runs. *)
Record Context : Type := mkContext {
  Done : nat -> bool
}.

(** [context.Background()] is never cancelled. *)
Definition Background : Context := {| Done := fun _ => false |}.

(** The variables [getData] declares before its loop and updates in it. *)
Record loop_state : Type := mkState {
  lastErr : error;
  discardNoSupportErrors : bool;
  confirmedV2 : bool
}.

Definition initial_state : loop_state :=
  {| lastErr := errNil; discardNoSupportErrors := false; confirmedV2 := false |}.

(** What one iteration does to the outside, in order: the [continue] of the
    version check, a call of [newManifestFetcher], a call of [Fetch]. *)
Inductive event : Type :=
| EvSkip (i : nat) (endpoint : APIEndpoint)
| EvNewFetcher (i : nat) (endpoint : APIEndpoint)
| EvFetch (i : nat) (endpoint : APIEndpoint).

(** How an iteration ends: [continue] with the updated variables, or a
    [return] out of [getData]. *)
Inductive control : Type :=
| Continue (st : loop_state)
| Return (img : option imageInspect) (err : error).

Section WithRegistry.

(** [reference.Named] and [registry.RepositoryInfo] with the methods used,
    and the calls into the registry package. *)
Variable Named : Type.
Variable Named_String : Named -> string.
Variable RepositoryInfo : Type.
Variable RepositoryInfo_Name : RepositoryInfo -> string.
Variable ParseRepositoryInfo : Named -> RepositoryInfo * error.
Variable LookupPullEndpoints : RepositoryInfo -> list APIEndpoint * error.
(** [api.NoBaseImageSpecifier] *)
Variable NoBaseImageSpecifier : string.

(** [v2ManifestFetcher]; its [service] field is the one registry service
    of the call. *)
Record v2ManifestFetcher : Type := mkV2ManifestFetcher {
  endpoint : APIEndpoint;
  authConfig : AuthConfig;
  repoInfo : RepositoryInfo
}.

(** [manifestFetcher.Fetch], a network call: its answer in iteration [i]. *)
Variable Fetch :
  nat -> Context -> v2ManifestFetcher -> Named -> option imageInspect * error.

(** [validateRepoName] *)
Definition validateRepoName (name : string) : error :=
  if (name =? "")%string then
    errorString "Repository name can't be empty"
  else if (name =? NoBaseImageSpecifier)%string then
    errorString ("'" ++ NoBaseImageSpecifier ++ "' is a reserved name")
  else errNil.

(** The error of [newManifestFetcher]:
    [fmt.Errorf("unknown version %d for registry %s", ...)]. *)
Definition unknown_version (ep : APIEndpoint) : error :=
  errorString ("unknown version " ++ fmt_d (Version ep)
               ++ " for registry " ++ URL ep).

(** [newManifestFetcher]: the [switch] has the one case [APIVersion2]. *)
Definition newManifestFetcher (ep : APIEndpoint) (ri : RepositoryInfo)
    (ac : AuthConfig) : v2ManifestFetcher + error :=
  if (Version ep =? APIVersion2)%Z then
    inl {| endpoint := ep; authConfig := ac; repoInfo := ri |}
  else inr (unknown_version ep).

(** The body of the [for] loop of [getData] in iteration [i]. *)
Definition loop_body (ctx : Context) (ref : Named) (ri : RepositoryInfo)
    (ac : AuthConfig) (i : nat) (st : loop_state) (ep : APIEndpoint)
  : list event * control :=
  if confirmedV2 st && (Version ep =? APIVersion1)%Z then
    ([EvSkip i ep], Continue st)
  else
    match newManifestFetcher ep ri ac with
    | inr err =>
        ([EvNewFetcher i ep],
         Continue {| lastErr := err;
                     discardNoSupportErrors := discardNoSupportErrors st;
                     confirmedV2 := confirmedV2 st |})
    | inl fetcher =>
        let '(imgInspect, err) := Fetch i ctx fetcher ref in
        let evs := [EvNewFetcher i ep; EvFetch i ep] in
        if negb (is_nil err) then
          (* the select on ctx.Done() *)
          let '(fallback, confirmed, err) :=
            if Done ctx i then (false, confirmedV2 st, err)
            else match err with
                 | fallbackError inner c => (true, confirmedV2 st || c, inner)
                 | _ => (false, confirmedV2 st, err)
                 end in
          if fallback then
            if negb (is_ErrNoSupport err) then
              (evs, Continue {| lastErr := err;
                                discardNoSupportErrors := true;
                                confirmedV2 := confirmed |})
            else if negb (discardNoSupportErrors st) then
              (evs, Continue {| lastErr := err;
                                discardNoSupportErrors :=
                                  discardNoSupportErrors st;
                                confirmedV2 := confirmed |})
            else
              (evs, Continue {| lastErr := lastErr st;
                                discardNoSupportErrors :=
                                  discardNoSupportErrors st;
                                confirmedV2 := confirmed |})
          else (evs, Return None err)
        else (evs, Return imgInspect errNil)
    end.

(** The [for] loop over [endpoints], from iteration [i] on. [Continue st]
    as its result is the loop running off the end of the list. *)
Fixpoint getData_loop (ctx : Context) (ref : Named) (ri : RepositoryInfo)
    (ac : AuthConfig) (i : nat) (st : loop_state)
    (endpoints : list APIEndpoint) : list event * control :=
  match endpoints with
  | [] => ([], Continue st)
  | ep :: rest =>
      match loop_body ctx ref ri ac i st ep with
      | (evs, Continue st') =>
          let '(evs', c) := getData_loop ctx ref ri ac (S i) st' rest in
          ((evs ++ evs')%list, c)
      | (evs, Return img err) => (evs, Return img err)
      end
  end.

(** Iteration [i] reaches [Fetch] on [ep], the context is not done, and
    the fetch fails with a [fallbackError] around [inner] with flag [c]. *)
Definition fallback_failure (ctx : Context) (ref : Named)
    (ri : RepositoryInfo) (ac : AuthConfig) (i : nat) (ep : APIEndpoint)
    (inner : error) (c : bool) : Prop :=
  exists (f : v2ManifestFetcher) (img : option imageInspect),
    newManifestFetcher ep ri ac = inl f
    /\ Fetch i ctx f ref = (img, fallbackError inner c)
    /\ Done ctx i = false.


(** No call of [newManifestFetcher] or of [Fetch] on a V1 endpoint. *)
Definition touches_no_v1 (ev : event) : Prop :=
  match ev with
  | EvSkip _ _ => True
  | EvNewFetcher _ ep | EvFetch _ ep => Version ep <> APIVersion1
  end.

(** The iteration and the endpoint an event belongs to. *)
Definition event_index (ev : event) : nat :=
  match ev with
  | EvSkip i _ | EvNewFetcher i _ | EvFetch i _ => i
  end.

Definition event_endpoint (ev : event) : APIEndpoint :=
  match ev with
  | EvSkip _ ep | EvNewFetcher _ ep | EvFetch _ ep => ep
  end.

(** The end of [getData], after the loop. *)
Definition getData_finish (ref : Named) (st : loop_state)
  : option imageInspect * error :=
  if is_nil (lastErr st) then
    (None, errorString ("no endpoints found for " ++ Named_String ref))
  else (None, lastErr st).

(** [getData] with the context it runs under as an argument. *)
Definition getData_in (ctx : Context) (ref : Named) (ac : AuthConfig)
  : list event * (option imageInspect * error) :=
  let '(ri, err) := ParseRepositoryInfo ref in
  if negb (is_nil err) then ([], (None, err))
  else
    let err := validateRepoName (RepositoryInfo_Name ri) in
    if negb (is_nil err) then ([], (None, err))
    else
      let '(endpoints, err) := LookupPullEndpoints ri in
      if negb (is_nil err) then ([], (None, err))
      else
        match getData_loop ctx ref ri ac 0 initial_state endpoints with
        | (evs, Return img err) => (evs, (img, err))
        | (evs, Continue st) => (evs, getData_finish ref st)
        end.

(** [getData]: the context is [context.Background()]. *)
Definition getData (ref : Named) (ac : AuthConfig)
  : list event * (option imageInspect * error) :=
  getData_in Background ref ac.

(** What [getData] may return for the registry of [ri]: a failure without
    a result, or the result of a fetch that returned a nil error. *)
Definition returned_well (ctx : Context) (ref : Named) (ri : RepositoryInfo)
    (ac : AuthConfig) (evs : list event) (img : option imageInspect)
    (err : error) : Prop :=
  (err <> errNil /\ img = None)
  \/ (err = errNil
      /\ exists (j : nat) (ep : APIEndpoint) (f : v2ManifestFetcher),
           In (EvFetch j ep) evs
           /\ newManifestFetcher ep ri ac = inl f
           /\ Fetch j ctx f ref = (img, errNil)).

(** [reference.ParseNamed] and [Named.Hostname], of the reference
    package. *)
Variable ParseNamed : string -> Named * error.
Variable Named_Hostname : Named -> string.

(** [*cli.Context], as far as [inspect] reads it: the arguments and the
    global string flags. *)
Record cliContext : Type := mkCliContext {
  Args : list string;
  GlobalString : string -> string
}.

(** [cli.Args.First]: the first argument, or the empty string. *)
Definition First (args : list string) : string :=
  match args with
  | [] => ""
  | a :: _ => a
  end.

(** [getAuthConfig] *)
Definition getAuthConfig (c : cliContext) (ref : Named)
  : AuthConfig * error :=
  let username := GlobalString c "username" in
  let password := GlobalString c "password" in
  if negb (username =? "")%string && negb (password =? "")%string then
    ({| Username := username; Password := password;
        Email := "antonio.murdaca@gmail.com" |}, errNil)
  else ({| Username := ""; Password := ""; Email := "" |}, errNil).

(** [inspect] *)
Definition inspect (c : cliContext)
  : list event * (option imageInspect * error) :=
  let '(ref, err) := ParseNamed (First (Args c)) in
  if negb (is_nil err) then ([], (None, err))
  else
    let '(authConfig, err) := getAuthConfig c ref in
    if negb (is_nil err) then ([], (None, err))
    else if negb (Named_Hostname ref =? "")%string then
      let '(evs, (ii, err)) := getData ref authConfig in
      if negb (is_nil err) then (evs, (None, err))
      else (evs, (ii, errNil))
    else ([], (None, errNil)).

End WithRegistry.

End Inspect.

(* ------------------------------------------------------------------ *)
(** ** The [docker] transport, as its test file pins it down *)

Module Docker.
Import Go.

(** A [reference.Named] value: its name, and the tag and the digest it
    carries when it is a [reference.NamedTagged] and a
    [reference.Canonical].  The test's [refWithTagAndDigest] is a value
    with both. *)
Record Named : Type := mkNamed {
  Name : string;
  Tag : option string;
  Digest : option string
}.

(** [dockerReference] *)
Record dockerReference : Type := mkDockerReference {
  ref : Named
}.

(** [reference.IsNameOnly] *)
Definition IsNameOnly (r : Named) : bool :=
  match Tag r, Digest r with
  | None, None => true
  | _, _ => false
  end.

(** [Named.String]: the name with its pin; a digest is rendered before a
    tag is looked at. *)
Definition Named_String (r : Named) : string :=
  match Digest r with
  | Some d => Name r ++ "@" ++ d
  | None =>
      match Tag r with
      | Some t => Name r ++ ":" ++ t
      | None => Name r
      end
  end.

(** Modelled from the spec: [reference.WithDefaultTag], which is not part
    of the sources; a reference with neither tag nor digest receives the
    default tag. *)
Definition WithDefaultTag (r : Named) : Named :=
  if IsNameOnly r
  then {| Name := Name r; Tag := Some "latest"; Digest := None |}
  else r.

(** Modelled from the spec: [NewReference] of the docker transport, which
    is not part of the sources.  Construction from a name with neither tag
    nor digest fails ([UnsupportedCombination]); the test
    [TestNewReference] asserts that construction from a name with both a
    tag and a digest fails as well. *)
Definition NewReference (r : Named) : option dockerReference * error :=
  if IsNameOnly r then
    (None, errorString
             ("UnsupportedCombination: " ++ Named_String r
              ++ " has neither a tag nor a digest"))
  else
    match Tag r, Digest r with
    | Some _, Some _ =>
        (None, errorString
                 "UnsupportedCombination: both a tag and a digest")
    | _, _ => (Some {| ref := r |}, errNil)
    end.

Section WithNaming.

(** The lexical rules of the naming library, which the spec leaves to it:
    the repository-name grammar with its normalization, the tag grammar and
    the digest grammar. *)
Variable normalizeName : string -> option string.
Variable validTag : string -> bool.
Variable validDigest : string -> bool.

(** Modelled from the spec: [reference.ParseNamed], which is not part of
    the sources, on the grammar [[host[:port]/]path[:tag][@digest]]: the
    digest is what follows the first [@]; the tag is what follows the last
    [:] of the rest when no [/] follows it; every part has to be valid; of
    a tag and a digest the digest is kept and the tag dropped. *)
Definition ParseNamed (s : string) : option Named * error :=
  let '(front, dg) :=
    match cut_first "@" s with
    | Some (a, b) => (a, Some b)
    | None => (s, None)
    end in
  let '(nm, tg) :=
    match cut_last ":" front with
    | Some (a, b) => if contains "/" b then (front, None) else (a, Some b)
    | None => (front, None)
    end in
  match normalizeName nm with
  | None => (None, errorString ("InvalidInput: repository name " ++ nm))
  | Some n =>
      if negb (match tg with Some t => validTag t | None => true end) then
        (None, errorString ("InvalidInput: tag in " ++ s))
      else if negb (match dg with Some d => validDigest d | None => true end)
      then (None, errorString ("InvalidInput: digest in " ++ s))
      else
        match dg with
        | Some d => (Some {| Name := n; Tag := None; Digest := Some d |},
                     errNil)
        | None => (Some {| Name := n; Tag := tg; Digest := None |}, errNil)
        end
  end.

(** Modelled from the spec: [ParseReference] of the docker transport, which
    is not part of the sources.  The test [testParseReference] asks for the
    [//] prefix and for the default tag. *)
Definition ParseReference (refString : string)
  : option dockerReference * error :=
  if negb (HasPrefix refString "//") then
    (None, errorString ("InvalidInput: " ++ refString
                        ++ " does not start with //"))
  else
    match ParseNamed (TrimPrefix refString "//") with
    | (Some r, _) => NewReference (WithDefaultTag r)
    | (None, err) => (None, err)
    end.

End WithNaming.

(** Modelled from the spec: [dockerReference.StringWithinTransport], which
    is not part of the sources; the test table pairs [busybox:notlatest]
    with [//busybox:notlatest]. *)
Definition StringWithinTransport (r : dockerReference) : string :=
  "//" ++ Named_String (ref r).

End Docker.

(* ------------------------------------------------------------------ *)
(** ** Concrete registries, filesystems and naming rules for the examples *)

Module Examples.
Import Go.

(** A filesystem state is the list of the paths that resolve, each with
    what it resolves to. *)
Definition FS : Type := list (string * string).



(** Naming rules for the test table: lowercase letters, digits and
    [. _ - / :] in a name, the default host and namespace not written. *)
Definition lower_or_sep (a : ascii) : bool :=
  let n := nat_of_ascii a in
  (((97 <=? n) && (n <=? 122)) || ((48 <=? n) && (n <=? 57))
   || (n =? 46) || (n =? 95) || (n =? 45) || (n =? 47) || (n =? 58))%nat.

Fixpoint all_chars (f : ascii -> bool) (s : string) : bool :=
  match s with
  | EmptyString => true
  | String a rest => f a && all_chars f rest
  end.

Definition normalizeName (nm : string) : option string :=
  if (nm =? "")%string || negb (all_chars lower_or_sep nm) then None
  else Some (TrimPrefix (TrimPrefix nm "docker.io/") "library/").

Definition validTag (t : string) : bool :=
  negb (t =? "")%string
  && all_chars (fun a => negb (Ascii.eqb a "/" || Ascii.eqb a "@"
                               || Ascii.eqb a ":")) t.

Definition validDigest (d : string) : bool :=
  HasPrefix d "sha256:" && (String.length d =? 71)%nat.

Definition sha256digestHex : string :=
  "0123456789abcdef0123456789abcdef0123456789abcdef0123456789abcdef".

(** A registry whose answer depends on the endpoint's URL only. *)
Definition answers : Type :=
  list (string * (option Inspect.imageInspect * error)).

Fixpoint answer (tbl : answers) (url : string)
  : option Inspect.imageInspect * error :=
  match tbl with
  | [] => (None, errorString ("dial " ++ url ++ ": connection refused"))
  | (u, a) :: tbl' => if (u =? url)%string then a else answer tbl' url
  end.

Definition Fetch (tbl : answers) (i : nat) (ctx : Inspect.Context)
    (f : Inspect.v2ManifestFetcher string) (r : string)
  : option Inspect.imageInspect * error :=
  answer tbl (Inspect.URL (Inspect.endpoint string f)).

Definition auth : Inspect.AuthConfig := Inspect.mkAuthConfig "" "" "".

Definition v2 (url : string) : Inspect.APIEndpoint :=
  Inspect.mkAPIEndpoint url Inspect.APIVersion2.
Definition v1 (url : string) : Inspect.APIEndpoint :=
  Inspect.mkAPIEndpoint url Inspect.APIVersion1.

(** [getData] and its loop on a registry that finds [endpoints] for every
    repository and answers by [tbl]. *)
Definition run_loop (ctx : Inspect.Context) (tbl : answers) :=
  Inspect.getData_loop string string (Fetch tbl) ctx "example.com/ns/foo"
    "example.com/ns/foo" auth.

Definition run_in (ctx : Inspect.Context) (endpoints : list Inspect.APIEndpoint)
    (tbl : answers) :=
  Inspect.getData_in string (fun r => r) string (fun r => r)
    (fun r => (r, errNil)) (fun _ => (endpoints, errNil)) "scratch"
    (Fetch tbl) ctx "example.com/ns/foo" auth.

Definition run (endpoints : list Inspect.APIEndpoint) (tbl : answers) :=
  Inspect.getData string (fun r => r) string (fun r => r)
    (fun r => (r, errNil)) (fun _ => (endpoints, errNil)) "scratch"
    (Fetch tbl) "example.com/ns/foo" auth.

(** The endpoints of the spec's fallback-ordering example. *)
Definition no_support : error :=
  fallbackError (ErrNoSupport (errorString "v2 not supported")) false.
Definition generic : error :=
  fallbackError (errorString "manifest unknown") true.
Definition ordering_tbl : answers :=
  [("a", (None, no_support)); ("b", (None, generic))].
Definition ordering_endpoints : list Inspect.APIEndpoint :=
  [v2 "a"; v2 "b"; v1 "c"].

(** The loop's variables after the first and after the second endpoint of
    that example. *)
Definition after_a : Inspect.loop_state :=
  Inspect.mkState (ErrNoSupport (errorString "v2 not supported")) false false.
Definition after_b : Inspect.loop_state :=
  Inspect.mkState (errorString "manifest unknown") true true.

(** A registry whose one V2 endpoint fails without confirming V2, and one
    with an endpoint that fails with an error that is no [fallbackError]. *)
Definition unconfirmed_tbl : answers :=
  [("b", (None, fallbackError (errorString "manifest unknown") false))].
Definition plain_tbl : answers :=
  [("a", (None, no_support)); ("x", (None, errorString "unauthorized"))].

(** A registry whose second endpoint answers. *)
Definition busybox : Inspect.imageInspect :=
  Inspect.mkImageInspect "" ["example.com/ns/foo:latest"] [] "" ""
    "2016-06-01T00:00:00Z" "" "1.11.2" "" "amd64" "linux" 1113554
    "example.com".
Definition success_tbl : answers :=
  [("a", (None, no_support)); ("ok", (Some busybox, errNil))].


(** A registry where every endpoint says that V2 is not supported. *)
Definition no_support_tbl : answers :=
  [("a", (None, no_support));
   ("a2", (None, fallbackError (ErrNoSupport (errorString "v2 gone")) false))].

(** A reference parser that refuses the empty string only, a hostname that
    is the part before the first [/] when it holds a dot, and a command
    line with a reference and both credentials. *)
Definition ParseNamed (s : string) : string * error :=
  if (s =? "")%string
  then ("", errorString "Error parsing reference")
  else (s, errNil).

Definition Hostname (r : string) : string :=
  match cut_first "/" r with
  | Some (h, _) => if contains "." h then h else ""
  | None => ""
  end.

Definition cli (args : list string) : Inspect.cliContext :=
  Inspect.mkCliContext args
    (fun flag =>
       if (flag =? "username")%string then "u"
       else if (flag =? "password")%string then "secret" else "").

Definition credentials : Inspect.AuthConfig :=
  Inspect.mkAuthConfig "u" "secret" "antonio.murdaca@gmail.com".

Definition run_inspect (endpoints : list Inspect.APIEndpoint)
    (tbl : answers) (c : Inspect.cliContext) :=
  Inspect.inspect string (fun r => r) string (fun r => r)
    (fun r => (r, errNil)) (fun _ => (endpoints, errNil)) "scratch"
    (Fetch tbl) ParseNamed Hostname c.

End Examples.


(* ================================================================== *)
(** * Properties *)

(** ** Strings *)

Module StringFacts.
Import Go.

Lemma append_assoc (a b c : string) : (a ++ b) ++ c = a ++ (b ++ c).
Proof. induction a as [|x a IH]; simpl; [reflexivity | now rewrite IH]. Qed.

Lemma append_empty_r (a : string) : a ++ "" = a.
Proof. induction a as [|x a IH]; simpl; [reflexivity | now rewrite IH]. Qed.

Lemma length_append (a b : string) :
  String.length (a ++ b) = (String.length a + String.length b)%nat.
Proof. induction a as [|x a IH]; simpl; [reflexivity | now rewrite IH]. Qed.

Lemma contains_append (c : ascii) (a b : string) :
  contains c (a ++ b) = contains c a || contains c b.
Proof.
  induction a as [|x a IH]; simpl; [reflexivity|].
  now rewrite IH, orb_assoc.
Qed.

Lemma contains_drop (c : ascii) (n : nat) (s : string) :
  contains c s = false -> contains c (drop n s) = false.
Proof.
  revert s; induction n as [|n IH]; intros [|x s]; simpl; auto.
  intros H; apply orb_false_iff in H as [_ H]; auto.
Qed.

Lemma contains_TrimPrefix (c : ascii) (s pre : string) :
  contains c s = false -> contains c (TrimPrefix s pre) = false.
Proof.
  intros H; unfold TrimPrefix.
  destruct (HasPrefix s pre); [now apply contains_drop | exact H].
Qed.

Lemma HasPrefix_append (pre s : string) : HasPrefix (pre ++ s) pre = true.
Proof.
  unfold HasPrefix; induction pre as [|x pre IH]; simpl.
  - now destruct s.
  - destruct (ascii_dec x x); [exact IH | congruence].
Qed.

Lemma drop_append (pre s : string) : drop (String.length pre) (pre ++ s) = s.
Proof. induction pre as [|x pre IH]; simpl; [reflexivity | exact IH]. Qed.

Lemma TrimPrefix_append (pre s : string) : TrimPrefix (pre ++ s) pre = s.
Proof. unfold TrimPrefix; now rewrite HasPrefix_append, drop_append. Qed.

(** Cutting at the first [c] finds the [c] that follows a piece without
    one. *)
Lemma cut_first_append (c : ascii) (a b : string) :
  contains c a = false -> cut_first c (a ++ String c b) = Some (a, b).
Proof.
  induction a as [|x a IH]; simpl; intros H.
  - now rewrite Ascii.eqb_refl.
  - apply orb_false_iff in H as [Hx Ha].
    now rewrite Hx, (IH Ha).
Qed.

Lemma cut_first_none (c : ascii) (s : string) :
  contains c s = false -> cut_first c s = None.
Proof.
  induction s as [|x s IH]; simpl; [reflexivity|]; intros H.
  apply orb_false_iff in H as [Hx Hs].
  now rewrite Hx, (IH Hs).
Qed.

Lemma cut_last_none (c : ascii) (s : string) :
  contains c s = false -> cut_last c s = None.
Proof.
  induction s as [|x s IH]; simpl; [reflexivity|]; intros H.
  apply orb_false_iff in H as [Hx Hs].
  now rewrite (IH Hs), Hx.
Qed.

(** Cutting at the last [c] finds the [c] that a piece without one
    follows. *)
Lemma cut_last_append (c : ascii) (a b : string) :
  contains c b = false -> cut_last c (a ++ String c b) = Some (a, b).
Proof.
  intros Hb; induction a as [|x a IH]; simpl.
  - now rewrite (cut_last_none _ _ Hb), Ascii.eqb_refl.
  - now rewrite IH.
Qed.

Lemma cut_last_some (c : ascii) (s l r : string) :
  cut_last c s = Some (l, r) -> s = l ++ String c r.
Proof.
  revert l r; induction s as [|x s IH]; simpl; [discriminate|]; intros l r.
  destruct (cut_last c s) as [[l' r']|].
  - intros [= <- <-]; simpl; now rewrite (IH l' r' eq_refl).
  - destruct (Ascii.eqb_spec x c) as [->|_]; [|discriminate].
    now intros [= <- <-].
Qed.

Lemma take_append (l r : string) : take (String.length l) (l ++ r) = l.
Proof.
  unfold take; induction l as [|x l IH]; simpl.
  - now destruct r.
  - now rewrite IH.
Qed.

Lemma HasPrefix_extend (s pre x : string) :
  HasPrefix s pre = true -> HasPrefix (s ++ x) pre = true.
Proof.
  unfold HasPrefix; revert s; induction pre as [|a pre IH]; intros s; simpl.
  - now destruct (s ++ x).
  - destruct s as [|b s]; simpl; [discriminate|].
    destruct (ascii_dec a b); [apply IH | discriminate].
Qed.

(** [%d] writes digits and a sign. *)
Lemma contains_slash_uint (d : Decimal.uint) :
  contains "/" (NilEmpty.string_of_uint d) = false.
Proof. induction d; simpl; auto. Qed.

Lemma contains_slash_fmt_d (z : Z) : contains "/" (fmt_d z) = false.
Proof.
  unfold fmt_d, NilZero.string_of_int, NilZero.string_of_uint.
  destruct (Z.to_int z) as [d|d]; destruct d; simpl;
    auto using contains_slash_uint.
Qed.

End StringFacts.

(** ** [filepath.Clean] and [filepath.Join] *)

Module FilepathFacts.
Import Go Filepath StringFacts.

Lemma elements_not_nil (s : string) : elements s <> [].
Proof.
  induction s as [|c s IH]; simpl; [discriminate|].
  destruct (Ascii.eqb c "/"); [discriminate|].
  destruct (elements s); [contradiction | discriminate].
Qed.

(** The elements of [a/b] are those of [a], then those of [b]. *)
Lemma elements_append (a b : string) :
  elements (a ++ String "/" b) = (elements a ++ elements b)%list.
Proof.
  induction a as [|c a IH]; simpl; [reflexivity|].
  destruct (Ascii.eqb c "/"); [now rewrite IH|].
  rewrite IH.
  pose proof (elements_not_nil a) as Hne.
  destruct (elements a); [contradiction | reflexivity].
Qed.

Lemma elements_no_separator (x : string) :
  contains "/" x = false -> elements x = [x].
Proof.
  induction x as [|c x IH]; simpl; [reflexivity|]; intros H.
  apply orb_false_iff in H as [Hc Hx].
  now rewrite Hc, (IH Hx).
Qed.

Lemma JoinSlash_snoc (l : list string) (x : string) :
  l <> [] -> JoinSlash (l ++ [x]) = JoinSlash l ++ "/" ++ x.
Proof.
  induction l as [|a l IH]; [congruence|]; intros _.
  destruct l as [|b l]; [reflexivity|].
  change (JoinSlash ((a :: b :: l) ++ [x]))
    with (a ++ "/" ++ JoinSlash ((b :: l) ++ [x])).
  rewrite IH by discriminate.
  change (JoinSlash (a :: b :: l)) with (a ++ "/" ++ JoinSlash (b :: l)).
  now rewrite !append_assoc.
Qed.

Lemma real_element_inv (x : string) :
  real_element x = true ->
  x <> "" /\ x <> "." /\ x <> ".." /\ contains "/" x = false.
Proof.
  unfold real_element; intros H.
  repeat (apply andb_prop in H as [H ?]).
  repeat split;
    try (apply String.eqb_neq; now apply negb_true_iff);
    now apply negb_true_iff.
Qed.

Lemma clean_element_real (r : bool) (out : list string) (x : string) :
  real_element x = true -> clean_element r out x = x :: out.
Proof.
  intros H; apply real_element_inv in H as (H1 & H2 & H3 & _).
  unfold clean_element.
  apply String.eqb_neq in H1, H2, H3.
  now rewrite H1, H2, H3.
Qed.

Lemma rooted_append (p s : string) : p <> "" -> rooted (p ++ s) = rooted p.
Proof. destruct p; [congruence | reflexivity]. Qed.

(** A real element appended to a clean path, other than [.] and [/],
    leaves the path clean. *)
Lemma Clean_append_real (p x : string) :
  Clean p = p -> p <> "." -> p <> "/" -> real_element x = true ->
  Clean (p ++ "/" ++ x) = p ++ "/" ++ x.
Proof.
  intros Hc Hdot Hroot Hx.
  assert (Hne : p <> "") by (intros ->; now apply Hdot).
  pose proof (real_element_inv _ Hx) as (_ & _ & _ & Hsl).
  unfold Clean in *.
  destruct (String.eqb_spec p "") as [|_]; [contradiction|].
  destruct (String.eqb_spec (p ++ "/" ++ x) "") as [E|_].
  { destruct p; [contradiction | discriminate]. }
  rewrite (rooted_append _ _ Hne).
  change (p ++ "/" ++ x) with (p ++ String "/" x).
  rewrite elements_append, fold_left_app, (elements_no_separator _ Hsl).
  simpl fold_left.
  rewrite (clean_element_real _ _ _ Hx).
  set (out := fold_left (clean_element (rooted p)) (elements p) []) in *.
  unfold render in *; simpl rev.
  destruct (rev out) as [|e es] eqn:Eout.
  - simpl in Hc. destruct (rooted p); congruence.
  - rewrite JoinSlash_snoc by discriminate.
    destruct (rooted p).
    + rewrite <- Hc. now rewrite append_assoc.
    + destruct (String.eqb_spec (JoinSlash (e :: es)) "") as [E|_];
        [congruence|].
      rewrite Hc.
      destruct (String.eqb_spec (p ++ "/" ++ x) "") as [E|_];
        [destruct p; [contradiction | discriminate] | reflexivity].
Qed.

(** [Join] of a clean directory and a real element is the two with a
    separator between them. *)
Lemma Join_clean_real (p x : string) :
  Clean p = p -> p <> "." -> p <> "/" -> real_element x = true ->
  Join [p; x] = p ++ "/" ++ x.
Proof.
  intros Hc Hdot Hroot Hx.
  assert (Hne : p <> "") by (intros ->; now apply Hdot).
  simpl. apply String.eqb_neq in Hne. rewrite Hne.
  apply String.eqb_neq in Hne.
  destruct p as [|c p]; [contradiction|].
  rewrite <- (Clean_append_real _ x Hc Hdot Hroot Hx) at 2.
  reflexivity.
Qed.

End FilepathFacts.

(** ** The directory transport *)

Module DirectoryFacts.
Import Go Directory StringFacts FilepathFacts.

Lemma long_is_real (s : string) :
  (4 <= String.length s)%nat -> contains "/" s = false ->
  Filepath.real_element s = true.
Proof.
  intros Hlen Hsl; unfold Filepath.real_element; rewrite Hsl.
  destruct (String.eqb_spec s "") as [->|_]; [simpl in Hlen; lia|].
  destruct (String.eqb_spec s ".") as [->|_]; [simpl in Hlen; lia|].
  destruct (String.eqb_spec s "..") as [->|_]; [simpl in Hlen; lia|].
  reflexivity.
Qed.

Lemma layer_name_real (digest : string) :
  contains "/" digest = false ->
  Filepath.real_element (TrimPrefix digest "sha256:" ++ ".tar") = true.
Proof.
  intros H; apply long_is_real.
  - rewrite length_append; simpl; lia.
  - rewrite contains_append, (contains_TrimPrefix _ _ _ H); reflexivity.
Qed.

Lemma signature_name_real (z : Z) :
  Filepath.real_element ("signature-" ++ fmt_d z) = true.
Proof.
  apply long_is_real.
  - rewrite length_append; simpl; lia.
  - rewrite contains_append, contains_slash_fmt_d; reflexivity.
Qed.

Lemma wrap_int_small (z : Z) : in_int z -> wrap_int z = z.
Proof.
  unfold in_int, wrap_int; intros H.
  rewrite Z.mod_small; lia.
Qed.



(** C7: [ValidatePolicyConfigurationScope] returns an error exactly for the
    scopes that do not start with [/], that are [/] itself, or that differ
    from their [Clean] form, and returns nil for every other scope. *)
Theorem C7_scope_validation (scope : string) :
  (is_nil (ValidatePolicyConfigurationScope scope) = false <->
     HasPrefix scope "/" = false \/ scope = "/"
     \/ Filepath.Clean scope <> scope)
  /\ (ValidatePolicyConfigurationScope scope = errNil <->
        HasPrefix scope "/" = true /\ scope <> "/"
        /\ Filepath.Clean scope = scope).
Proof.
  unfold ValidatePolicyConfigurationScope.
  destruct (HasPrefix scope "/"); simpl.
  2:{ split; split; auto; try discriminate. now intros [? _]. }
  destruct (String.eqb_spec scope "/") as [->|Hroot]; simpl.
  { split; split; auto; try discriminate. now intros (_ & ? & _). }
  destruct (String.eqb_spec (Filepath.Clean scope) scope) as [Hc|Hc]; simpl.
  - split; split; auto; try discriminate.
    intros [?|[?|?]]; congruence.
  - split; split; auto; try discriminate. now intros (_ & _ & ?).
Qed.

Lemma C7_scope_validation_witness :
  ValidatePolicyConfigurationScope "/a/b" = errNil.
Proof.
  apply (proj2 (C7_scope_validation "/a/b")).
  repeat split; discriminate.
Defined.

(** The scopes of the spec's scope-validation example. *)
Lemma scope_validation_examples :
  ValidatePolicyConfigurationScope "/"
    = errorString ("Invalid scope " ++ dquote ++ "/" ++ dquote
                   ++ ": Use the generic default scope " ++ dquote ++ dquote)
  /\ ValidatePolicyConfigurationScope "/a/b/"
     = errorString
         "Invalid scope /a/b/: Uses non-canonical format, perhaps try /a/b"
  /\ ValidatePolicyConfigurationScope "relative/path"
     = errorString "Invalid scope relative/path: Must be an absolute path"
  /\ ValidatePolicyConfigurationScope "/a/b" = errNil.
Proof. repeat split. Qed.

(** C8, as stated, fails three times: a digest of another algorithm keeps
    its prefix; a path that is not clean is cleaned by [Join]; the index
    after the largest [int] wraps around. *)
Lemma C8_counterexample :
  layerPath (mkDirReference "/d" "/d") "sha512:abcd"
    = "/d/sha512:abcd.tar"
  /\ layerPath (mkDirReference "/d" "/d") "sha512:abcd"
     <> "/d" ++ "/" ++ digest_without_algorithm_prefix "sha512:abcd" ++ ".tar"
  /\ manifestPath (mkDirReference "/tmp/d/" "/tmp/d")
     <> "/tmp/d/" ++ "/manifest.json"
  /\ signaturePath (mkDirReference "/d" "/d") (2 ^ 63 - 1)
     <> "/d" ++ "/signature-" ++ fmt_d (2 ^ 63 - 1 + 1).
Proof. repeat split; vm_compute; discriminate. Qed.

(** C8, amended: for a reference whose path [p] is clean and is not [.] or
    [/], [manifestPath] is [p/manifest.json]; [layerPath] of a digest
    without a separator is [p/<digest>.tar] with a leading [sha256:] of the
    digest removed and nothing else, so [p/<hex>.tar] for [sha256:<hex>];
    [signaturePath] of an index [0 <= i] below the largest [int] is
    [p/signature-<i+1>]. *)
Theorem C8_layout_paths (r : dirReference) :
  Filepath.Clean (path r) = path r -> path r <> "." -> path r <> "/" ->
  manifestPath r = path r ++ "/manifest.json"
  /\ (forall digest : string,
        contains "/" digest = false ->
        layerPath r digest
        = path r ++ "/" ++ TrimPrefix digest "sha256:" ++ ".tar")
  /\ (forall hex : string,
        contains "/" hex = false ->
        layerPath r ("sha256:" ++ hex) = path r ++ "/" ++ hex ++ ".tar")
  /\ (forall index : Z,
        (0 <= index < 2 ^ 63 - 1)%Z ->
        signaturePath r index
        = path r ++ "/signature-" ++ fmt_d (index + 1)).
Proof.
  intros Hc Hdot Hroot.
  assert (Hlayer : forall digest : string,
             contains "/" digest = false ->
             layerPath r digest
             = path r ++ "/" ++ TrimPrefix digest "sha256:" ++ ".tar").
  { intros digest Hd; unfold layerPath.
    now rewrite (Join_clean_real _ _ Hc Hdot Hroot (layer_name_real _ Hd)). }
  repeat split.
  - unfold manifestPath.
    now rewrite (Join_clean_real _ "manifest.json" Hc Hdot Hroot).
  - exact Hlayer.
  - intros hex Hh.
    rewrite Hlayer by (rewrite contains_append, Hh; reflexivity).
    now rewrite TrimPrefix_append.
  - intros index Hi; unfold signaturePath.
    rewrite wrap_int_small by (unfold in_int; lia).
    now rewrite (Join_clean_real _ _ Hc Hdot Hroot (signature_name_real _)).
Qed.

Lemma C8_layout_paths_witness :
  manifestPath (mkDirReference "/tmp/d" "/tmp/d") = "/tmp/d/manifest.json"
  /\ layerPath (mkDirReference "/tmp/d" "/tmp/d") "sha256:0123abcd"
     = "/tmp/d/0123abcd.tar"
  /\ signaturePath (mkDirReference "/tmp/d" "/tmp/d") 0
     = "/tmp/d/signature-1".
Proof.
  destruct (C8_layout_paths (mkDirReference "/tmp/d" "/tmp/d"))
    as (Hm & _ & Hl & Hs);
    [reflexivity | discriminate | discriminate |].
  split; [exact Hm|].
  split; [exact (Hl "0123abcd" eq_refl) | apply (Hs 0%Z); lia].
Defined.

(** What a namespace [ns] of [path] is: not empty, a prefix of [path] and
    shorter than it, and [/] only under a path that begins with two
    separators. *)
Lemma namespaces_loop_spec (fuel : nat) (path : string) (res : list string) :
  (String.length path < fuel)%nat ->
  exists tail : list string,
    namespaces_loop fuel path res = Some (res ++ tail)%list
    /\ Forall (fun ns =>
                 ns <> "" /\ HasPrefix path ns = true
                 /\ (String.length ns < String.length path)%nat
                 /\ (ns = "/" -> HasPrefix path "//" = true)) tail.
Proof.
  revert path res; induction fuel as [|fuel IH]; intros path res Hlen;
    [lia|].
  simpl; unfold LastIndex.
  destruct (cut_last "/" path) as [[l r]|] eqn:Ecut.
  2:{ exists []; rewrite app_nil_r; split; [reflexivity | constructor]. }
  apply cut_last_some in Ecut; subst path.
  replace (Z.of_nat (String.length l) =? -1)%Z with false
    by (symmetry; apply Z.eqb_neq; lia).
  rewrite Nat2Z.id, take_append.
  destruct l as [|a l].
  { exists []; rewrite app_nil_r; split; [reflexivity | constructor]. }
  replace (Z.of_nat (String.length (String a l)) =? 0)%Z with false
    by (symmetry; apply Z.eqb_neq; simpl String.length; lia).
  simpl orb; cbv iota.
  rewrite length_append in Hlen; simpl in Hlen.
  destruct (IH (String a l) (res ++ [String a l])%list) as (tail & -> & Hall);
    [simpl; lia|].
  exists (String a l :: tail); rewrite <- app_assoc; split; [reflexivity|].
  constructor.
  - repeat split.
    + discriminate.
    + apply HasPrefix_append.
    + rewrite length_append; simpl; lia.
    + intros [= -> ->]; exact (HasPrefix_append "//" r).
  - eapply Forall_impl; [|exact Hall].
    intros ns (Hne & Hpre & Hlt & Hroot); repeat split.
    + exact Hne.
    + now apply HasPrefix_extend.
    + rewrite length_append; simpl in *; lia.
    + intros E; now apply HasPrefix_extend, Hroot.
Qed.

(** [PolicyConfigurationNamespaces] returns, and what it returns are
    non-empty proper prefixes of the resolved path, none of them the root
    [/] when the resolved path does not begin with two separators. *)
Theorem namespaces_are_proper_prefixes (r : dirReference) :
  exists res : list string,
    PolicyConfigurationNamespaces r = Some res
    /\ Forall (fun ns =>
                 ns <> "" /\ HasPrefix (resolvedPath r) ns = true
                 /\ (String.length ns < String.length (resolvedPath r))%nat)
         res
    /\ (HasPrefix (resolvedPath r) "//" = false -> ~ In "/" res).
Proof.
  destruct (namespaces_loop_spec (S (String.length (resolvedPath r)))
              (resolvedPath r) [] (Nat.lt_succ_diag_r _))
    as (res & Hres & Hall).
  exists res; split; [exact Hres|]; split.
  - eapply Forall_impl; [|exact Hall].
    intros ns (H1 & H2 & H3 & _); auto.
  - intros Hno Hin.
    rewrite Forall_forall in Hall.
    destruct (Hall _ Hin) as (_ & _ & _ & Hroot).
    rewrite (Hroot eq_refl) in Hno; discriminate.
Qed.

Lemma namespaces_are_proper_prefixes_witness :
  PolicyConfigurationNamespaces (mkDirReference "d" "/a/b/c")
    = Some ["/a/b"; "/a"]
  /\ ~ In "/" ["/a/b"; "/a"].
Proof.
  destruct (namespaces_are_proper_prefixes (mkDirReference "d" "/a/b/c"))
    as (res & Hres & _ & Hroot).
  assert (E : res = ["/a/b"; "/a"]) by (vm_compute in Hres; congruence).
  subst res; split; [exact Hres | exact (Hroot eq_refl)].
Defined.

End DirectoryFacts.

(** ** The endpoint fallback loop of [getData] *)

Module InspectFacts.
Import Go Inspect.

Section Loop.

Variable Named : Type.
Variable Named_String : Named -> string.
Variable RepositoryInfo : Type.
Variable RepositoryInfo_Name : RepositoryInfo -> string.
Variable ParseRepositoryInfo : Named -> RepositoryInfo * error.
Variable LookupPullEndpoints : RepositoryInfo -> list APIEndpoint * error.
Variable NoBaseImageSpecifier : string.
Variable Fetch :
  nat -> Context -> v2ManifestFetcher RepositoryInfo -> Named ->
  option imageInspect * error.

Variable ctx : Context.
Variable ref : Named.
Variable ri : RepositoryInfo.
Variable ac : AuthConfig.

Local Abbreviation body := (loop_body Named RepositoryInfo Fetch ctx ref ri ac).
Local Abbreviation loop := (getData_loop Named RepositoryInfo Fetch ctx ref ri ac).
Local Abbreviation new_fetcher ep :=
  (newManifestFetcher RepositoryInfo ep ri ac).
Local Abbreviation finish := (getData_finish Named Named_String ref).
Local Abbreviation getData_in :=
  (getData_in Named Named_String RepositoryInfo RepositoryInfo_Name
     ParseRepositoryInfo LookupPullEndpoints NoBaseImageSpecifier Fetch).

(** *** [newManifestFetcher] *)

Lemma newManifestFetcher_v2 (ep : APIEndpoint) :
  Version ep = APIVersion2 ->
  new_fetcher ep = inl {| endpoint := ep; authConfig := ac; repoInfo := ri |}.
Proof. unfold newManifestFetcher; intros ->; reflexivity. Qed.

Lemma newManifestFetcher_other (ep : APIEndpoint) :
  Version ep <> APIVersion2 -> new_fetcher ep = inr (unknown_version ep).
Proof.
  unfold newManifestFetcher; intros H.
  apply Z.eqb_neq in H; now rewrite H.
Qed.

Lemma newManifestFetcher_inl (ep : APIEndpoint) f :
  new_fetcher ep = inl f -> Version ep = APIVersion2.
Proof.
  unfold newManifestFetcher.
  destruct (Z.eqb_spec (Version ep) APIVersion2); [auto | discriminate].
Qed.

(** *** One iteration *)

(** The three shapes of an iteration: a skip, a fetcher that cannot be
    built, a fetch. *)
Lemma body_shape (i : nat) (st : loop_state) (ep : APIEndpoint) evs c :
  body i st ep = (evs, c) ->
  (evs = [EvSkip i ep] /\ c = Continue st
   /\ confirmedV2 st = true /\ Version ep = APIVersion1)
  \/ (evs = [EvNewFetcher i ep] /\ Version ep <> APIVersion2
      /\ c = Continue {| lastErr := unknown_version ep;
                         discardNoSupportErrors := discardNoSupportErrors st;
                         confirmedV2 := confirmedV2 st |})
  \/ (evs = [EvNewFetcher i ep; EvFetch i ep] /\ Version ep = APIVersion2).
Proof.
  unfold loop_body.
  destruct (confirmedV2 st && (Version ep =? APIVersion1)%Z) eqn:Eskip.
  { intros [= <- <-]; left.
    apply andb_prop in Eskip as [? Ev]; apply Z.eqb_eq in Ev; auto. }
  destruct (Z.eq_dec (Version ep) APIVersion2) as [E2|E2].
  - rewrite (newManifestFetcher_v2 _ E2).
    intros H; right; right; split; [|exact E2].
    destruct (Fetch i ctx _ ref) as [img err].
    destruct (is_nil err), (Done ctx i), err; simpl in H;
      repeat match type of H with
             | context [if ?b then _ else _] => destruct b
             end; now inversion H.
  - rewrite (newManifestFetcher_other _ E2).
    intros [= <- <-]; right; left; auto.
Qed.

(** An iteration that continues never clears [confirmedV2] or
    [discardNoSupportErrors], and once [ErrNoSupport] errors are discarded
    the remembered error is never an [ErrNoSupport]. *)
Lemma body_continue (i : nat) (st st' : loop_state) (ep : APIEndpoint) evs :
  body i st ep = (evs, Continue st') ->
  (confirmedV2 st = true -> confirmedV2 st' = true)
  /\ (discardNoSupportErrors st = true ->
      discardNoSupportErrors st' = true)
  /\ (discardNoSupportErrors st = true ->
      is_ErrNoSupport (lastErr st) = false ->
      is_ErrNoSupport (lastErr st') = false).
Proof.
  unfold loop_body, newManifestFetcher.
  destruct (confirmedV2 st && (Version ep =? APIVersion1)%Z).
  { intros [= _ <-]; auto. }
  destruct (Version ep =? APIVersion2)%Z.
  2:{ intros [= _ <-]; simpl; auto. }
  destruct (Fetch i ctx _ ref) as [img err].
  destruct err as [| s | e | inner c]; simpl; destruct (Done ctx i);
    try discriminate.
  destruct (is_ErrNoSupport inner) eqn:Ens; simpl.
  - destruct (discardNoSupportErrors st) eqn:Ed; simpl;
      intros [= _ <-]; simpl; repeat split; auto;
      try discriminate; intros ->; reflexivity.
  - intros [= _ <-]; simpl; repeat split; auto.
    intros ->; reflexivity.
Qed.

(** A fetch that fails with a [fallbackError], the context not done. *)
Lemma body_fallback (i : nat) (st : loop_state) (ep : APIEndpoint)
    (inner : error) (c : bool) :
  fallback_failure Named RepositoryInfo Fetch ctx ref ri ac i ep inner c ->
  body i st ep =
    ([EvNewFetcher i ep; EvFetch i ep],
     Continue
       (if negb (is_ErrNoSupport inner) then
          {| lastErr := inner; discardNoSupportErrors := true;
             confirmedV2 := confirmedV2 st || c |}
        else if negb (discardNoSupportErrors st) then
          {| lastErr := inner;
             discardNoSupportErrors := discardNoSupportErrors st;
             confirmedV2 := confirmedV2 st || c |}
        else
          {| lastErr := lastErr st;
             discardNoSupportErrors := discardNoSupportErrors st;
             confirmedV2 := confirmedV2 st || c |})).
Proof.
  intros (f & img & Hf & Hfetch & Hdone).
  pose proof (newManifestFetcher_inl _ _ Hf) as Hv.
  unfold loop_body.
  rewrite Hv; change (APIVersion2 =? APIVersion1)%Z with false.
  rewrite andb_false_r.
  unfold newManifestFetcher in *; rewrite Hv in *; simpl in Hf |- *.
  injection Hf as <-.
  rewrite Hfetch, Hdone; simpl.
  destruct (is_ErrNoSupport inner); simpl; [|reflexivity].
  destruct (discardNoSupportErrors st); reflexivity.
Qed.

(** A fetch that fails with the loop not falling back: the context is done,
    or the error is not a [fallbackError]. *)
Lemma body_no_fallback (i : nat) (st : loop_state) (ep : APIEndpoint)
    f img err :
  new_fetcher ep = inl f -> Fetch i ctx f ref = (img, err) ->
  err <> errNil ->
  Done ctx i = true \/ (forall inner c, err <> fallbackError inner c) ->
  body i st ep = ([EvNewFetcher i ep; EvFetch i ep], Return None err).
Proof.
  intros Hf Hfetch Hnil Hwhy.
  pose proof (newManifestFetcher_inl _ _ Hf) as Hv.
  unfold loop_body.
  rewrite Hv; change (APIVersion2 =? APIVersion1)%Z with false.
  rewrite andb_false_r, Hf, Hfetch.
  destruct err as [| s | e | inner c]; try congruence; simpl;
    destruct (Done ctx i); try reflexivity.
  destruct Hwhy as [?|Hnf]; [discriminate|].
  now destruct (Hnf inner c).
Qed.

(** *** The whole loop *)

(** The loop over [pre ++ post] is the loop over [pre], and when that runs
    off its end, the loop over [post] from where it stopped. *)
Lemma loop_app (pre post : list APIEndpoint) (i : nat) (st : loop_state) :
  loop i st (pre ++ post)%list =
    match loop i st pre with
    | (evs, Continue st1) =>
        let '(evs', c) := loop (i + List.length pre) st1 post in
        ((evs ++ evs')%list, c)
    | (evs, Return img err) => (evs, Return img err)
    end.
Proof.
  revert i st; induction pre as [|ep pre IH]; intros i st; simpl.
  - rewrite Nat.add_0_r. now destruct (loop i st post).
  - destruct (body i st ep) as [evs [st'|img err]]; [|reflexivity].
    rewrite IH, <- Nat.add_succ_comm.
    destruct (loop (S i) st' pre) as [evs1 [st1|img err]]; [|reflexivity].
    destruct (loop (S i + List.length pre) st1 post) as [evs2 c].
    now rewrite app_assoc.
Qed.

Lemma loop_continue (eps : list APIEndpoint) (i : nat) (st st' : loop_state)
    evs :
  loop i st eps = (evs, Continue st') ->
  (confirmedV2 st = true -> confirmedV2 st' = true)
  /\ (discardNoSupportErrors st = true ->
      discardNoSupportErrors st' = true)
  /\ (discardNoSupportErrors st = true ->
      is_ErrNoSupport (lastErr st) = false ->
      is_ErrNoSupport (lastErr st') = false).
Proof.
  revert i st evs; induction eps as [|ep eps IH]; intros i st evs; simpl.
  - intros [= _ <-]; auto.
  - destruct (body i st ep) as [evs0 [st0|img err]] eqn:Eb; [|discriminate].
    destruct (loop (S i) st0 eps) as [evs1 c] eqn:El.
    intros [= _ ->].
    apply body_continue in Eb as (B1 & B2 & B3).
    apply IH in El as (L1 & L2 & L3).
    repeat split; auto.
Qed.

(** With V2 confirmed, the loop neither builds a fetcher for a V1 endpoint
    nor fetches from one. *)
Lemma loop_confirmed_events (eps : list APIEndpoint) (i : nat)
    (st : loop_state) evs c :
  confirmedV2 st = true -> loop i st eps = (evs, c) ->
  Forall touches_no_v1 evs.
Proof.
  revert i st evs c; induction eps as [|ep eps IH]; intros i st evs c Hc;
    simpl.
  - intros [= <- _]; constructor.
  - destruct (body i st ep) as [evs0 c0] eqn:Eb.
    assert (H0 : Forall touches_no_v1 evs0).
    { destruct (body_shape _ _ _ _ _ Eb)
        as [(-> & _)|[(-> & Hv & _)|(-> & Hv)]].
      - repeat constructor.
      - (* a fetcher was asked for: the endpoint was not skipped *)
        repeat constructor; simpl; intros H1.
        unfold loop_body in Eb; rewrite Hc, H1 in Eb; simpl in Eb.
        discriminate.
      - repeat constructor; simpl; rewrite Hv; discriminate. }
    destruct c0 as [st0|img err].
    + destruct (loop (S i) st0 eps) as [evs1 c1] eqn:El.
      intros [= <- <-]; apply Forall_app; split; [exact H0|].
      apply body_continue in Eb as (B1 & _).
      exact (IH _ _ _ _ (B1 Hc) El).
    + now intros [= <- _].
Qed.

(** [Fetch] is only ever called on a V2 endpoint. *)
Lemma loop_fetches_v2 (eps : list APIEndpoint) (i : nat) (st : loop_state)
    evs c :
  loop i st eps = (evs, c) ->
  forall j ep, In (EvFetch j ep) evs -> Version ep = APIVersion2.
Proof.
  revert i st evs c; induction eps as [|ep eps IH]; intros i st evs c; simpl.
  - intros [= <- _] j e [].
  - destruct (body i st ep) as [evs0 c0] eqn:Eb.
    assert (H0 : forall j e, In (EvFetch j e) evs0 -> Version e = APIVersion2).
    { intros j e Hin.
      destruct (body_shape _ _ _ _ _ Eb)
        as [(-> & _)|[(-> & _)|(-> & Hv)]]; simpl in Hin;
        repeat destruct Hin as [Hin|Hin]; try discriminate; try contradiction.
      now injection Hin as _ <-. }
    destruct c0 as [st0|img err].
    + destruct (loop (S i) st0 eps) as [evs1 c1] eqn:El.
      intros [= <- <-] j e Hin; apply in_app_or in Hin as [Hin|Hin];
        [exact (H0 _ _ Hin) | exact (IH _ _ _ _ El _ _ Hin)].
    + intros [= <- _]; exact H0.
Qed.


(** [getData] after its three first calls is its loop and what follows the
    loop. *)
Lemma getData_in_unfold (endpoints : list APIEndpoint) :
  ParseRepositoryInfo ref = (ri, errNil) ->
  validateRepoName NoBaseImageSpecifier (RepositoryInfo_Name ri) = errNil ->
  LookupPullEndpoints ri = (endpoints, errNil) ->
  getData_in ctx ref ac =
    match loop 0%nat initial_state endpoints with
    | (evs, Return img err) => (evs, (img, err))
    | (evs, Continue st) => (evs, finish st)
    end.
Proof.
  intros Hp Hv Hl; unfold Inspect.getData_in.
  rewrite Hp; simpl; rewrite Hv; simpl; rewrite Hl; reflexivity.
Qed.

(** *** The claims about the loop *)

(** C1: in an iteration that finds [confirmedV2] true and a V1 endpoint,
    the endpoint is skipped: no fetcher is built, nothing is fetched, the
    state is unchanged.  And once the loop has reached a state with the
    flag true, the rest of the loop, whatever its endpoints, neither builds
    a fetcher for a V1 endpoint nor fetches from one (it fetches from V2
    endpoints only), and the flag stays true. *)
Theorem C1_confirmed_v2_skips_v1
    (i : nat) (st st1 : loop_state) (pre post : list APIEndpoint)
    (evs1 : list event) :
  loop i st pre = (evs1, Continue st1) ->
  confirmedV2 st1 = true ->
  (forall (j : nat) (s : loop_state) (ep : APIEndpoint),
      confirmedV2 s = true -> Version ep = APIVersion1 ->
      body j s ep = ([EvSkip j ep], Continue s))
  /\ exists (evs2 : list event) (c : control),
       loop i st (pre ++ post)%list = ((evs1 ++ evs2)%list, c)
       /\ loop (i + List.length pre) st1 post = (evs2, c)
       /\ Forall touches_no_v1 evs2
       /\ (forall (j : nat) (ep : APIEndpoint),
             In (EvFetch j ep) evs2 -> Version ep = APIVersion2)
       /\ (forall st2, c = Continue st2 -> confirmedV2 st2 = true).
Proof.
  intros Hpre Hc; split.
  - intros j s ep Hs Hv; unfold loop_body; now rewrite Hs, Hv.
  - destruct (loop (i + List.length pre) st1 post) as [evs2 c] eqn:Epost.
    exists evs2, c; repeat split.
    + now rewrite loop_app, Hpre, Epost.
    + exact (loop_confirmed_events _ _ _ _ _ Hc Epost).
    + exact (loop_fetches_v2 _ _ _ _ _ Epost).
    + intros st2 ->.
      now apply (loop_continue _ _ _ _ _ Epost).
Qed.



(** C5: when the loop runs off the endpoint list, [getData] fails with the
    [no endpoints found] error when the remembered error is nil, and with
    the remembered error otherwise; with an empty list the remembered error
    is nil. *)
Theorem C5_exhausted_list_error
    (endpoints : list APIEndpoint) (evs : list event) (st : loop_state) :
  ParseRepositoryInfo ref = (ri, errNil) ->
  validateRepoName NoBaseImageSpecifier (RepositoryInfo_Name ri) = errNil ->
  LookupPullEndpoints ri = (endpoints, errNil) ->
  loop 0%nat initial_state endpoints = (evs, Continue st) ->
  getData_in ctx ref ac = (evs, finish st)
  /\ (lastErr st = errNil ->
      finish st
      = (None, errorString ("no endpoints found for " ++ Named_String ref)))
  /\ (lastErr st <> errNil -> finish st = (None, lastErr st))
  /\ (endpoints = [] -> lastErr st = errNil).
Proof.
  intros Hp Hv Hl Hloop.
  rewrite (getData_in_unfold _ Hp Hv Hl), Hloop.
  unfold getData_finish; repeat split.
  - now intros ->.
  - intros Hne; destruct (lastErr st); [contradiction | reflexivity ..].
  - intros ->; simpl in Hloop; now injection Hloop as _ <-.
Qed.

(** C9, amended: [newManifestFetcher] returns a fetcher exactly for a V2
    endpoint and the [unknown version] error for every other one, V1
    included; so [Fetch] is only ever called on a V2 endpoint.  A V1
    endpoint that the loop reaches with [confirmedV2] false has that error
    recorded as the remembered error; one reached with [confirmedV2] true is
    skipped and the remembered error stays; in both cases the loop goes on
    to the next endpoint. *)
Theorem C9_only_v2_is_fetched :
  (forall ep : APIEndpoint,
      (exists f, new_fetcher ep = inl f) <-> Version ep = APIVersion2)
  /\ (forall ep : APIEndpoint,
        Version ep <> APIVersion2 ->
        new_fetcher ep = inr (unknown_version ep))
  /\ (forall (i : nat) (st : loop_state) (eps : list APIEndpoint)
             (evs : list event) (c : control),
        loop i st eps = (evs, c) ->
        forall (j : nat) (ep : APIEndpoint),
          In (EvFetch j ep) evs -> Version ep = APIVersion2)
  /\ (forall (i : nat) (st : loop_state) (ep : APIEndpoint),
        Version ep = APIVersion1 ->
        body i st ep =
          if confirmedV2 st then ([EvSkip i ep], Continue st)
          else ([EvNewFetcher i ep],
                Continue {| lastErr := unknown_version ep;
                            discardNoSupportErrors :=
                              discardNoSupportErrors st;
                            confirmedV2 := false |})).
Proof.
  repeat split.
  - intros [f Hf]; exact (newManifestFetcher_inl _ _ Hf).
  - intros Hv; rewrite (newManifestFetcher_v2 _ Hv); eauto.
  - exact newManifestFetcher_other.
  - intros i st eps evs c; exact (loop_fetches_v2 eps i st evs c).
  - intros i st ep Hv; unfold loop_body.
    rewrite Hv; simpl.
    destruct (confirmedV2 st) eqn:Ec; simpl; [reflexivity|].
    rewrite newManifestFetcher_other by (rewrite Hv; discriminate).
    reflexivity.
Qed.

(** C10: when a fetch fails with an error that is not a [fallbackError] and
    the context is not done, the loop stops there: no later endpoint is
    looked at, and [getData] returns that error. *)
Theorem C10_plain_error_stops
    (pre rest : list APIEndpoint) (st : loop_state) (evs0 : list event)
    (ep : APIEndpoint) (f : v2ManifestFetcher RepositoryInfo)
    (img : option imageInspect) (err : error) :
  ParseRepositoryInfo ref = (ri, errNil) ->
  validateRepoName NoBaseImageSpecifier (RepositoryInfo_Name ri) = errNil ->
  LookupPullEndpoints ri = ((pre ++ ep :: rest)%list, errNil) ->
  loop 0%nat initial_state pre = (evs0, Continue st) ->
  new_fetcher ep = inl f ->
  Fetch (List.length pre) ctx f ref = (img, err) ->
  err <> errNil ->
  (forall inner c, err <> fallbackError inner c) ->
  Done ctx (List.length pre) = false ->
  getData_in ctx ref ac =
    ((evs0 ++ [EvNewFetcher (List.length pre) ep;
               EvFetch (List.length pre) ep])%list,
     (None, err)).
Proof.
  intros Hp Hv Hl Hpre Hf Hfetch Hnil Hnf _.
  rewrite (getData_in_unfold _ Hp Hv Hl), loop_app, Hpre; simpl.
  now rewrite (body_no_fallback _ st _ _ _ _ Hf Hfetch Hnil (or_intror Hnf)).
Qed.

(** *** Further properties of [getData] *)

(** The first fetch that succeeds ends [getData]: its result is returned
    with a nil error and no later endpoint is looked at. *)
Theorem first_success_wins
    (pre rest : list APIEndpoint) (st : loop_state) (evs0 : list event)
    (ep : APIEndpoint) (f : v2ManifestFetcher RepositoryInfo)
    (img : option imageInspect) :
  ParseRepositoryInfo ref = (ri, errNil) ->
  validateRepoName NoBaseImageSpecifier (RepositoryInfo_Name ri) = errNil ->
  LookupPullEndpoints ri = ((pre ++ ep :: rest)%list, errNil) ->
  loop 0%nat initial_state pre = (evs0, Continue st) ->
  new_fetcher ep = inl f ->
  Fetch (List.length pre) ctx f ref = (img, errNil) ->
  getData_in ctx ref ac =
    ((evs0 ++ [EvNewFetcher (List.length pre) ep;
               EvFetch (List.length pre) ep])%list,
     (img, errNil)).
Proof.
  intros Hp Hv Hl Hpre Hf Hfetch.
  rewrite (getData_in_unfold _ Hp Hv Hl), loop_app, Hpre; simpl.
  pose proof (newManifestFetcher_inl _ _ Hf) as Hv2.
  unfold loop_body.
  rewrite Hv2; change (APIVersion2 =? APIVersion1)%Z with false.
  now rewrite andb_false_r, Hf, Hfetch.
Qed.

(** [validateRepoName] refuses the empty name and the reserved name, and
    nothing else. *)
Theorem validateRepoName_refuses (name : string) :
  validateRepoName NoBaseImageSpecifier name = errNil <->
  name <> "" /\ name <> NoBaseImageSpecifier.
Proof.
  unfold validateRepoName.
  destruct (String.eqb_spec name "") as [->|Hne].
  { split; [discriminate | now intros [? _]]. }
  destruct (String.eqb_spec name NoBaseImageSpecifier) as [->|Hnr].
  { split; [discriminate | now intros [_ ?]]. }
  split; auto.
Qed.

End Loop.

(** [getData] runs under [context.Background()], which is never done. *)
Lemma Background_never_done (i : nat) : Done Background i = false.
Proof. reflexivity. Qed.

(** The spec's fallback-ordering example: of [V2-a] (protocol not
    supported), [V2-b] (generic error, protocol confirmed) and [V1-c], the
    third is skipped and the error of the second is returned. *)
Lemma fallback_ordering_example :
  Examples.run Examples.ordering_endpoints Examples.ordering_tbl
  = ([EvNewFetcher 0 (Examples.v2 "a"); EvFetch 0 (Examples.v2 "a");
      EvNewFetcher 1 (Examples.v2 "b"); EvFetch 1 (Examples.v2 "b");
      EvSkip 2 (Examples.v1 "c")],
     (None, errorString "manifest unknown")).
Proof. reflexivity. Qed.

Lemma C1_confirmed_v2_skips_v1_witness :
  confirmedV2 Examples.after_b = true
  /\ exists (evs2 : list event) (c : control),
       Examples.run_loop Background Examples.ordering_tbl 0 initial_state
         ([Examples.v2 "a"; Examples.v2 "b"] ++ [Examples.v1 "c"])%list
       = (([EvNewFetcher 0 (Examples.v2 "a"); EvFetch 0 (Examples.v2 "a");
            EvNewFetcher 1 (Examples.v2 "b"); EvFetch 1 (Examples.v2 "b")]
           ++ evs2)%list, c)
       /\ Forall touches_no_v1 evs2.
Proof.
  split; [reflexivity|].
  destruct (C1_confirmed_v2_skips_v1 string string
              (Examples.Fetch Examples.ordering_tbl) Background
              "example.com/ns/foo" "example.com/ns/foo" Examples.auth
              0 initial_state Examples.after_b
              [Examples.v2 "a"; Examples.v2 "b"] [Examples.v1 "c"]
              [EvNewFetcher 0 (Examples.v2 "a"); EvFetch 0 (Examples.v2 "a");
               EvNewFetcher 1 (Examples.v2 "b"); EvFetch 1 (Examples.v2 "b")]
              eq_refl eq_refl)
    as (_ & evs2 & c & Hall & _ & Hev & _ & _).
  exists evs2, c; split; [exact Hall | exact Hev].
Defined.




Lemma C5_exhausted_list_error_witness :
  Examples.run_in Background Examples.ordering_endpoints
    Examples.ordering_tbl
  = ([EvNewFetcher 0 (Examples.v2 "a"); EvFetch 0 (Examples.v2 "a");
      EvNewFetcher 1 (Examples.v2 "b"); EvFetch 1 (Examples.v2 "b");
      EvSkip 2 (Examples.v1 "c")],
     (None, errorString "manifest unknown"))
  /\ Examples.run_in Background [] []
     = ([], (None, errorString "no endpoints found for example.com/ns/foo")).
Proof.
  split.
  - apply (C5_exhausted_list_error string (fun r => r) string (fun r => r)
             (fun r => (r, errNil))
             (fun _ => (Examples.ordering_endpoints, errNil)) "scratch"
             (Examples.Fetch Examples.ordering_tbl) Background
             "example.com/ns/foo" "example.com/ns/foo" Examples.auth
             Examples.ordering_endpoints _ Examples.after_b);
      reflexivity.
  - apply (C5_exhausted_list_error string (fun r => r) string (fun r => r)
             (fun r => (r, errNil)) (fun _ => ([], errNil)) "scratch"
             (Examples.Fetch []) Background
             "example.com/ns/foo" "example.com/ns/foo" Examples.auth
             [] [] initial_state);
      reflexivity.
Defined.

(** C9, as stated, fails: the V2 endpoint [b] confirms V2 in its failure,
    so the V1 endpoint [c] is skipped; the error of its fetcher is never
    built, let alone recorded, and [getData] returns the error of [b]. *)
Lemma C9_counterexample :
  Version (Examples.v1 "c") = APIVersion1
  /\ Examples.run [Examples.v2 "b"; Examples.v1 "c"]
       [("b", (None, Examples.generic))]
     = ([EvNewFetcher 0 (Examples.v2 "b"); EvFetch 0 (Examples.v2 "b");
         EvSkip 1 (Examples.v1 "c")],
        (None, errorString "manifest unknown"))
  /\ Examples.run_loop Background [("b", (None, Examples.generic))] 0
       initial_state [Examples.v2 "b"; Examples.v1 "c"]
     = ([EvNewFetcher 0 (Examples.v2 "b"); EvFetch 0 (Examples.v2 "b");
         EvSkip 1 (Examples.v1 "c")],
        Continue Examples.after_b)
  /\ lastErr Examples.after_b <> unknown_version (Examples.v1 "c").
Proof. repeat split; discriminate. Qed.

Lemma C9_only_v2_is_fetched_witness :
  loop_body string string (Examples.Fetch Examples.unconfirmed_tbl)
    Background "example.com/ns/foo" "example.com/ns/foo" Examples.auth 1
    {| lastErr := errorString "manifest unknown";
       discardNoSupportErrors := true; confirmedV2 := false |}
    (Examples.v1 "c")
  = ([EvNewFetcher 1 (Examples.v1 "c")],
     Continue {| lastErr := errorString "unknown version 1 for registry c";
                 discardNoSupportErrors := true; confirmedV2 := false |}).
Proof.
  exact (proj2 (proj2 (proj2
           (C9_only_v2_is_fetched string string
              (Examples.Fetch Examples.unconfirmed_tbl) Background
              "example.com/ns/foo" "example.com/ns/foo" Examples.auth)))
           1%nat
           {| lastErr := errorString "manifest unknown";
              discardNoSupportErrors := true; confirmedV2 := false |}
           (Examples.v1 "c") eq_refl).
Defined.

Lemma C10_plain_error_stops_witness :
  Examples.run_in Background
    [Examples.v2 "a"; Examples.v2 "x"; Examples.v2 "b"] Examples.plain_tbl
  = ([EvNewFetcher 0 (Examples.v2 "a"); EvFetch 0 (Examples.v2 "a");
      EvNewFetcher 1 (Examples.v2 "x"); EvFetch 1 (Examples.v2 "x")],
     (None, errorString "unauthorized")).
Proof.
  apply (C10_plain_error_stops string (fun r => r) string (fun r => r)
           (fun r => (r, errNil))
           (fun _ => ([Examples.v2 "a"; Examples.v2 "x"; Examples.v2 "b"],
                      errNil)) "scratch"
           (Examples.Fetch Examples.plain_tbl) Background
           "example.com/ns/foo" "example.com/ns/foo" Examples.auth
           [Examples.v2 "a"] [Examples.v2 "b"] Examples.after_a
           [EvNewFetcher 0 (Examples.v2 "a"); EvFetch 0 (Examples.v2 "a")]
           (Examples.v2 "x")
           (mkV2ManifestFetcher string (Examples.v2 "x") Examples.auth
              "example.com/ns/foo")
           None (errorString "unauthorized"));
    try reflexivity; discriminate.
Defined.

Lemma first_success_wins_witness :
  Examples.run_in Background [Examples.v2 "a"; Examples.v2 "ok"; Examples.v2 "b"]
    Examples.success_tbl
  = ([EvNewFetcher 0 (Examples.v2 "a"); EvFetch 0 (Examples.v2 "a");
      EvNewFetcher 1 (Examples.v2 "ok"); EvFetch 1 (Examples.v2 "ok")],
     (Some Examples.busybox, errNil)).
Proof.
  apply (first_success_wins string (fun r => r) string (fun r => r)
           (fun r => (r, errNil))
           (fun _ => ([Examples.v2 "a"; Examples.v2 "ok"; Examples.v2 "b"],
                      errNil)) "scratch"
           (Examples.Fetch Examples.success_tbl) Background
           "example.com/ns/foo" "example.com/ns/foo" Examples.auth
           [Examples.v2 "a"] [Examples.v2 "b"] Examples.after_a
           [EvNewFetcher 0 (Examples.v2 "a"); EvFetch 0 (Examples.v2 "a")]
           (Examples.v2 "ok")
           (mkV2ManifestFetcher string (Examples.v2 "ok") Examples.auth
              "example.com/ns/foo")
           (Some Examples.busybox));
    reflexivity.
Defined.

Lemma validateRepoName_refuses_witness :
  validateRepoName "scratch" "busybox" = errNil.
Proof.
  apply (proj2 (validateRepoName_refuses "scratch" "busybox")).
  split; discriminate.
Defined.

End InspectFacts.

(** ** The docker transport *)

Module DockerFacts.
Import Go Docker StringFacts.

(** The table of [testParseReference], under the naming rules of the
    examples: the rendering of the reference each input gives, or no
    reference. *)
Lemma parse_reference_table :
  map (fun input =>
         option_map (fun r => Named_String (ref r))
           (fst (ParseReference Examples.normalizeName Examples.validTag
                   Examples.validDigest input)))
      ["busybox"; "//busybox:notlatest";
       "//busybox@sha256:" ++ Examples.sha256digestHex; "//busybox";
       "//busybox:latest@sha256:" ++ Examples.sha256digestHex;
       "//docker.io/library/busybox:latest"; "//UPPERCASEISINVALID"]
  = [None; Some "busybox:notlatest";
     Some ("busybox@sha256:" ++ Examples.sha256digestHex);
     Some "busybox:latest";
     Some ("busybox@sha256:" ++ Examples.sha256digestHex);
     Some "busybox:latest"; None].
Proof. reflexivity. Qed.

(** The table of [TestReferenceStringWithinTransport]: each rendering
    parses to a reference with the same rendering. *)
Lemma string_within_transport_table :
  map (fun input =>
         option_map
           (fun r =>
              (StringWithinTransport r,
               option_map StringWithinTransport
                 (fst (ParseReference Examples.normalizeName
                         Examples.validTag Examples.validDigest
                         (StringWithinTransport r)))))
           (fst (ParseReference Examples.normalizeName Examples.validTag
                   Examples.validDigest ("//" ++ input))))
      ["busybox:notlatest"; "busybox@sha256:" ++ Examples.sha256digestHex;
       "docker.io/library/busybox:latest"; "example.com/ns/foo:bar"]
  = [Some ("//busybox:notlatest", Some "//busybox:notlatest");
     Some ("//busybox@sha256:" ++ Examples.sha256digestHex,
           Some ("//busybox@sha256:" ++ Examples.sha256digestHex));
     Some ("//busybox:latest", Some "//busybox:latest");
     Some ("//example.com/ns/foo:bar", Some "//example.com/ns/foo:bar")].
Proof. reflexivity. Qed.

Section StableNaming.

Variable normalizeName : string -> option string.
Variable validTag validDigest : string -> bool.

(** What the round trip asks of the naming library: a normalized name is
    left alone by a second normalization, holds no [@], and does not end in
    what reads as a tag; a tag holds none of [@], [:] and [/]; the default
    tag is a tag. *)
Hypothesis normalize_stable :
  forall nm n, normalizeName nm = Some n -> normalizeName n = Some n.
Hypothesis normalize_no_at :
  forall nm n, normalizeName nm = Some n -> contains "@" n = false.
Hypothesis normalize_no_tag :
  forall nm n, normalizeName nm = Some n ->
    match cut_last ":" n with
    | Some (_, b) => contains "/" b = true
    | None => True
    end.
Hypothesis tag_chars :
  forall t, validTag t = true ->
    contains "@" t = false /\ contains ":" t = false
    /\ contains "/" t = false.
Hypothesis default_tag_valid : validTag "latest" = true.

(** What [ParseNamed] returns: a normalized name with a valid digest and no
    tag, or with no digest and at most a valid tag. *)
Lemma ParseNamed_inv (s : string) (r : Named) (e : error) :
  ParseNamed normalizeName validTag validDigest s = (Some r, e) ->
  (exists nm, normalizeName nm = Some (Name r))
  /\ ((exists d, Digest r = Some d /\ validDigest d = true /\ Tag r = None)
      \/ (Digest r = None
          /\ match Tag r with Some t => validTag t = true | None => True end)).
Proof.
  unfold ParseNamed.
  destruct (match cut_first "@" s with
            | Some (a, b) => (a, Some b) | None => (s, None) end)
    as [front dg].
  destruct (match cut_last ":" front with
            | Some (a, b) =>
                if contains "/" b then (front, None) else (a, Some b)
            | None => (front, None) end) as [nm tg].
  destruct (normalizeName nm) as [n|] eqn:En; [|discriminate].
  destruct (match tg with Some t => validTag t | None => true end) eqn:Et;
    simpl; [|discriminate].
  destruct dg as [d|].
  - destruct (validDigest d) eqn:Ed; simpl; [|discriminate].
    intros [= <- _]; simpl; split; [eauto|left; eauto].
  - simpl; intros [= <- _]; simpl; split; [eauto|right].
    split; [reflexivity|]. destruct tg; [exact Et | exact I].
Qed.

Lemma reparse_digest (n d : string) :
  (exists nm, normalizeName nm = Some n) -> validDigest d = true ->
  ParseReference normalizeName validTag validDigest ("//" ++ n ++ "@" ++ d)
  = (Some {| ref := {| Name := n; Tag := None; Digest := Some d |} |},
     errNil).
Proof.
  intros (nm & Hn) Hd.
  unfold ParseReference.
  rewrite HasPrefix_append, TrimPrefix_append; simpl negb; cbv iota.
  unfold ParseNamed.
  change (n ++ "@" ++ d) with (n ++ String "@" d).
  rewrite (cut_first_append _ _ _ (normalize_no_at _ _ Hn)).
  pose proof (normalize_no_tag _ _ Hn) as Hnt.
  destruct (cut_last ":" n) as [[a b]|].
  - now rewrite Hnt, (normalize_stable _ _ Hn), Hd.
  - now rewrite (normalize_stable _ _ Hn), Hd.
Qed.

Lemma reparse_tag (n t : string) :
  (exists nm, normalizeName nm = Some n) -> validTag t = true ->
  ParseReference normalizeName validTag validDigest ("//" ++ n ++ ":" ++ t)
  = (Some {| ref := {| Name := n; Tag := Some t; Digest := None |} |},
     errNil).
Proof.
  intros (nm & Hn) Ht.
  destruct (tag_chars _ Ht) as (Hat & Hcolon & Hslash).
  unfold ParseReference.
  rewrite HasPrefix_append, TrimPrefix_append; simpl negb; cbv iota.
  unfold ParseNamed.
  rewrite (cut_first_none "@" (n ++ ":" ++ t))
    by (rewrite !contains_append, (normalize_no_at _ _ Hn), Hat;
        reflexivity).
  change (n ++ ":" ++ t) with (n ++ String ":" t).
  now rewrite (cut_last_append _ _ _ Hcolon), Hslash,
    (normalize_stable _ _ Hn), Ht.
Qed.

(** Under these rules the docker transport has the round trip of the
    directory transport: what [ParseReference] accepts renders to a string
    that [ParseReference] maps to the same reference. *)
Lemma docker_string_within_transport_roundtrip
    (input : string) (r : dockerReference) :
  ParseReference normalizeName validTag validDigest input = (Some r, errNil) ->
  ParseReference normalizeName validTag validDigest (StringWithinTransport r)
  = (Some r, errNil).
Proof.
  unfold ParseReference at 1.
  destruct (HasPrefix input "//"); simpl; [|discriminate].
  destruct (ParseNamed _ _ _ _) as [[nd|] e] eqn:Ep; [|discriminate].
  apply ParseNamed_inv in Ep as (Hnm & Hpin).
  destruct nd as [n tg dg]; simpl in Hnm, Hpin.
  unfold NewReference, WithDefaultTag, IsNameOnly; simpl.
  destruct Hpin as [(d & -> & Hd & ->)|(-> & Ht)].
  - intros [= <-]; exact (reparse_digest n d Hnm Hd).
  - destruct tg as [t|]; simpl; intros [= <-].
    + exact (reparse_tag n t Hnm Ht).
    + exact (reparse_tag n "latest" Hnm default_tag_valid).
Qed.

End StableNaming.

(** C6, as stated, fails for the constructor: [NewReference] on the
    structured name of [TestNewReference] that carries a tag and a digest
    returns an error and no reference. *)
Lemma C6_counterexample :
  NewReference
    {| Name := "busybox"; Tag := Some "notLatest";
       Digest := Some ("sha256:" ++ Examples.sha256digestHex) |}
  = (None, errorString "UnsupportedCombination: both a tag and a digest").
Proof. reflexivity. Qed.

(** C6, amended: [ParseReference] on an input [//name:tag@digest] whose
    parts are valid keeps the digest and drops the tag, so that the
    reference has the digest as its one pin; [NewReference] on a structured
    name that carries a tag and a digest returns an error. *)
Theorem C6_digest_wins_in_parse
    (normalizeName : string -> option string)
    (validTag validDigest : string -> bool)
    (name tag digest n : string) :
  contains "@" name = false ->
  contains "@" tag = false -> contains ":" tag = false ->
  contains "/" tag = false ->
  normalizeName name = Some n ->
  validTag tag = true -> validDigest digest = true ->
  ParseReference normalizeName validTag validDigest
    ("//" ++ name ++ ":" ++ tag ++ "@" ++ digest)
  = (Some {| ref := {| Name := n; Tag := None; Digest := Some digest |} |},
     errNil)
  /\ Named_String {| Name := n; Tag := None; Digest := Some digest |}
     = n ++ "@" ++ digest
  /\ forall t d : string,
       NewReference {| Name := n; Tag := Some t; Digest := Some d |}
       = (None,
          errorString "UnsupportedCombination: both a tag and a digest").
Proof.
  intros Hn Ht Hcolon Hslash Hname Htag Hdigest.
  split; [|split; [reflexivity | intros t d; reflexivity]].
  unfold ParseReference.
  rewrite HasPrefix_append, TrimPrefix_append; simpl negb; cbv iota.
  unfold ParseNamed.
  replace (name ++ ":" ++ tag ++ "@" ++ digest)
    with ((name ++ ":" ++ tag) ++ String "@" digest)
    by (now rewrite !append_assoc).
  rewrite cut_first_append
    by (rewrite !contains_append, Hn, Ht; reflexivity).
  change (name ++ ":" ++ tag) with (name ++ String ":" tag).
  rewrite (cut_last_append _ _ _ Hcolon), Hslash, Hname, Htag, Hdigest.
  reflexivity.
Qed.

Lemma C6_digest_wins_in_parse_witness :
  ParseReference Examples.normalizeName Examples.validTag
    Examples.validDigest
    ("//" ++ "busybox" ++ ":" ++ "latest" ++ "@"
     ++ "sha256:" ++ Examples.sha256digestHex)
  = (Some {| ref := {| Name := "busybox"; Tag := None;
                       Digest :=
                         Some ("sha256:" ++ Examples.sha256digestHex) |} |},
     errNil).
Proof.
  apply (C6_digest_wins_in_parse Examples.normalizeName Examples.validTag
           Examples.validDigest "busybox" "latest"
           ("sha256:" ++ Examples.sha256digestHex) "busybox");
    reflexivity.
Defined.

End DockerFacts.

(* ================================================================== *)
(** * Further properties *)

(** ** More on strings *)

Module StringMoreFacts.
Import Go StringFacts.

Lemma append_cancel_l (p a b : string) : p ++ a = p ++ b -> a = b.
Proof. induction p as [|x p IH]; simpl; [auto | intros [= H]; auto]. Qed.

Lemma append_cancel_r (a b c : string) : a ++ c = b ++ c -> a = b.
Proof.
  revert b; induction a as [|x a IH]; intros [|y b] H; simpl in H.
  - reflexivity.
  - apply (f_equal String.length) in H; simpl in H.
    rewrite length_append in H; lia.
  - apply (f_equal String.length) in H; simpl in H.
    rewrite length_append in H; lia.
  - injection H as -> H; now rewrite (IH b H).
Qed.

(** The characters [%d] writes. *)
Lemma uint_chars (c : ascii) (d : Decimal.uint) :
  contains c (NilEmpty.string_of_uint d) = true ->
  contains c "0123456789" = true.
Proof.
  induction d; cbn [NilEmpty.string_of_uint contains]; [discriminate | ..];
    (intros H; apply orb_prop in H as [H|H];
     [apply Ascii.eqb_eq in H; subst c; reflexivity | exact (IHd H)]).
Qed.

Lemma fmt_d_chars (c : ascii) (z : Z) :
  contains c (fmt_d z) = true -> contains c "-0123456789" = true.
Proof.
  unfold fmt_d, NilZero.string_of_int, NilZero.string_of_uint.
  assert (Hu : forall d, contains c (NilEmpty.string_of_uint d) = true ->
                         contains c "-0123456789" = true).
  { intros d H; apply uint_chars in H.
    change (contains c "-0123456789")
      with (Ascii.eqb "-" c || contains c "0123456789").
    rewrite H; apply orb_true_r. }
  assert (Hz : contains c "0" = true -> contains c "-0123456789" = true).
  { cbn [contains]; intros H; rewrite orb_false_r in H.
    apply Ascii.eqb_eq in H; subst c; reflexivity. }
  destruct (Z.to_int z) as [d|d].
  - destruct d; try apply Hu; exact Hz.
  - cbn [contains]; intros H; apply orb_prop in H as [H|H].
    + apply Ascii.eqb_eq in H; subst c; reflexivity.
    + destruct d; try exact (Hu _ H); exact (Hz H).
Qed.

(** [%d] writes different numbers differently. *)
Lemma fmt_d_inj (a b : Z) : fmt_d a = fmt_d b -> a = b.
Proof.
  unfold fmt_d; intros H.
  assert (Hn : forall z, Z.to_int z <> Decimal.Pos Decimal.Nil
                         /\ Z.to_int z <> Decimal.Neg Decimal.Nil).
  { intros [|q|q]; simpl; split; try discriminate;
      intros [= E]; exact (DecimalPos.Unsigned.to_uint_nonnil _ E). }
  assert (E : Some (Z.to_int a) = Some (Z.to_int b)).
  { rewrite <- (NilZero.isi (Z.to_int a)), <- (NilZero.isi (Z.to_int b));
      try apply Hn.
    now rewrite H. }
  injection E as E.
  rewrite <- (DecimalZ.of_to a), <- (DecimalZ.of_to b).
  now rewrite E.
Qed.

End StringMoreFacts.

(** ** The shape of a clean rooted path *)

Module FilepathShape.
Import Go Filepath StringFacts FilepathFacts.

Lemma elements_slash_free (s : string) :
  Forall (fun e => contains "/" e = false) (elements s).
Proof.
  induction s as [|c s IH]; simpl; [repeat constructor|].
  destruct (Ascii.eqb c "/") eqn:Ec; [constructor; [reflexivity | exact IH]|].
  destruct (elements s) as [|e es]; [repeat constructor; simpl; now rewrite Ec|].
  inversion IH as [|? ? He Hes]; subst.
  constructor; [simpl; now rewrite Ec, He | exact Hes].
Qed.

(** In a rooted path [Clean] keeps real elements only. *)
Lemma clean_rooted_keeps_real (es out : list string) :
  Forall (fun e => contains "/" e = false) es ->
  Forall (fun e => real_element e = true) out ->
  Forall (fun e => real_element e = true)
    (fold_left (clean_element true) es out).
Proof.
  revert out; induction es as [|e es IH]; intros out Hes Hout; simpl;
    [exact Hout|].
  inversion Hes as [|? ? He Hes']; subst.
  apply IH; [exact Hes'|].
  unfold clean_element.
  destruct (String.eqb_spec e "") as [|H1]; [exact Hout|].
  destruct (String.eqb_spec e ".") as [|H2]; [exact Hout|].
  destruct (String.eqb_spec e "..") as [|H3].
  - destruct out as [|top below]; [constructor|].
    inversion Hout; subst.
    destruct (top =? "..")%string; assumption.
  - constructor; [|exact Hout].
    unfold real_element; rewrite He.
    apply String.eqb_neq in H1, H2, H3.
    now rewrite H1, H2, H3.
Qed.

Lemma Forall_rev_real (l : list string) :
  Forall (fun e => real_element e = true) l ->
  Forall (fun e => real_element e = true) (rev l).
Proof.
  intros H; apply Forall_forall; intros x Hx.
  rewrite Forall_forall in H; apply H; now apply in_rev.
Qed.

(** What [Clean] makes of a rooted path: the root and real elements. *)
Lemma Clean_rooted_shape (p : string) :
  rooted p = true ->
  exists es : list string,
    Forall (fun e => real_element e = true) es
    /\ Clean p = "/" ++ JoinSlash es.
Proof.
  intros Hr; unfold Clean.
  destruct (String.eqb_spec p "") as [->|_]; [discriminate|].
  rewrite Hr; unfold render.
  exists (rev (fold_left (clean_element true) (elements p) [])).
  split; [|reflexivity].
  apply Forall_rev_real, clean_rooted_keeps_real;
    [apply elements_slash_free | constructor].
Qed.

Lemma elements_JoinSlash (es : list string) :
  es <> [] -> Forall (fun e => real_element e = true) es ->
  elements (JoinSlash es) = es.
Proof.
  induction es as [|e es IH]; [congruence|]; intros _ Hall.
  inversion Hall as [|? ? He Hes]; subst.
  apply real_element_inv in He as (_ & _ & _ & Hsl).
  destruct es as [|e' es]; [exact (elements_no_separator _ Hsl)|].
  change (JoinSlash (e :: e' :: es)) with (e ++ String "/" (JoinSlash (e' :: es))).
  rewrite elements_append, (elements_no_separator _ Hsl), IH;
    [reflexivity | discriminate | exact Hes].
Qed.

Lemma fold_real (r : bool) (es out : list string) :
  Forall (fun e => real_element e = true) es ->
  fold_left (clean_element r) es out = (rev es ++ out)%list.
Proof.
  revert out; induction es as [|e es IH]; intros out Hall; simpl;
    [reflexivity|].
  inversion Hall as [|? ? He Hes]; subst.
  rewrite (clean_element_real _ _ _ He), (IH _ Hes), <- app_assoc.
  reflexivity.
Qed.

Lemma Clean_rooted_unfold (x : string) :
  Clean (String "/" x)
  = render true (fold_left (clean_element true) (elements x) []).
Proof. reflexivity. Qed.

(** The root followed by real elements is a clean path. *)
Lemma Clean_of_real_rooted (es : list string) :
  Forall (fun e => real_element e = true) es ->
  Clean ("/" ++ JoinSlash es) = "/" ++ JoinSlash es.
Proof.
  intros Hall.
  change ("/" ++ JoinSlash es) with (String "/" (JoinSlash es)).
  rewrite Clean_rooted_unfold.
  destruct es as [|e es]; [reflexivity|].
  rewrite (elements_JoinSlash (e :: es)) by (discriminate || exact Hall).
  rewrite (fold_real true (e :: es) [] Hall), app_nil_r.
  unfold render; now rewrite rev_involutive.
Qed.

Lemma JoinSlash_real_not_empty (es : list string) :
  es <> [] -> Forall (fun e => real_element e = true) es ->
  JoinSlash es <> "".
Proof.
  destruct es as [|e es]; [congruence|]; intros _ Hall.
  inversion Hall as [|? ? He _]; subst.
  apply real_element_inv in He as (Hne & _).
  destruct e; [congruence|].
  destruct es; simpl; discriminate.
Qed.

Lemma HasPrefix_slash_rooted (s : string) :
  HasPrefix s "/" = rooted s.
Proof.
  unfold HasPrefix, rooted; destruct s as [|c s]; [reflexivity|].
  change (String.prefix "/" (String c s))
    with (if ascii_dec "/" c then String.prefix "" s else false).
  destruct (ascii_dec "/" c) as [<-|Hne]; [now destruct s|].
  symmetry; apply Ascii.eqb_neq; congruence.
Qed.

End FilepathShape.

(** ** More on the directory transport *)

Module DirectoryMoreFacts.
Import Go Directory StringFacts FilepathFacts StringMoreFacts FilepathShape.

Local Abbreviation real es :=
  (Forall (fun e => Filepath.real_element e = true) es).

Lemma real_path_accepted (es : list string) :
  es <> [] -> real es ->
  ValidatePolicyConfigurationScope ("/" ++ JoinSlash es) = errNil.
Proof.
  intros Hne Hall.
  assert (H1 : HasPrefix ("/" ++ JoinSlash es) "/" = true)
    by (rewrite HasPrefix_slash_rooted; reflexivity).
  assert (H2 : ("/" ++ JoinSlash es =? "/")%string = false).
  { apply String.eqb_neq; intros [= E].
    now destruct (JoinSlash_real_not_empty es). }
  unfold ValidatePolicyConfigurationScope.
  rewrite H1, H2; cbv beta iota zeta delta [negb].
  now rewrite (Clean_of_real_rooted es Hall), String.eqb_refl.
Qed.

(** The scopes [ValidatePolicyConfigurationScope] accepts are the root
    followed by one or more real path elements with single separators
    between them: no empty element, no [.] and no [..], nothing after the
    last element. *)
Theorem accepted_scopes_are_real_rooted_paths (scope : string) :
  ValidatePolicyConfigurationScope scope = errNil <->
  exists es : list string,
    es <> [] /\ real es /\ scope = "/" ++ JoinSlash es.
Proof.
  split.
  - unfold ValidatePolicyConfigurationScope.
    rewrite HasPrefix_slash_rooted.
    destruct (Filepath.rooted scope) eqn:Hr; simpl; [|discriminate].
    destruct (String.eqb_spec scope "/") as [|Hroot]; [discriminate|].
    destruct (String.eqb_spec (Filepath.Clean scope) scope) as [Hc|];
      simpl; [intros _ | discriminate].
    destruct (Clean_rooted_shape scope Hr) as (es & Hall & Hshape).
    exists es; rewrite Hc in Hshape; repeat split; auto.
    intros ->; now apply Hroot.
  - intros (es & Hne & Hall & ->); now apply real_path_accepted.
Qed.

Lemma accepted_scopes_are_real_rooted_paths_witness :
  ValidatePolicyConfigurationScope "/var/lib/images" = errNil.
Proof.
  apply (proj2 (accepted_scopes_are_real_rooted_paths "/var/lib/images")).
  exists ["var"; "lib"; "images"]; repeat split;
    [discriminate | repeat constructor].
Defined.

(** The loop on a clean rooted path, given by its elements the last one
    first, collects the proper ancestors of the path. *)
Lemma namespaces_loop_clean (l : list string) :
  l <> [] -> real l ->
  forall (fuel : nat) (res : list string),
    (String.length ("/" ++ JoinSlash (rev l)) < fuel)%nat ->
    namespaces_loop fuel ("/" ++ JoinSlash (rev l)) res
    = Some (res ++ ancestors l)%list.
Proof.
  induction l as [|x l IH]; [congruence|]; intros _ Hall fuel res Hlen.
  inversion Hall as [|? ? Hx Hl]; subst.
  pose proof (real_element_inv _ Hx) as (_ & _ & _ & Hsl).
  destruct fuel as [|fuel]; [lia|].
  destruct l as [|y l].
  - change ("/" ++ JoinSlash (rev [x])) with (String "/" x).
    cbn [namespaces_loop]; unfold LastIndex.
    change (String "/" x) with ("" ++ String "/" x).
    rewrite (cut_last_append _ _ _ Hsl); simpl.
    now rewrite app_nil_r.
  - assert (Hsplit : "/" ++ JoinSlash (rev (x :: y :: l))
                     = ("/" ++ JoinSlash (rev (y :: l))) ++ String "/" x).
    { change (rev (x :: y :: l)) with (rev (y :: l) ++ [x])%list.
      rewrite JoinSlash_snoc.
      - now rewrite append_assoc.
      - simpl; intros E; now apply app_eq_nil in E as [_ E]. }
    rewrite Hsplit in Hlen |- *.
    cbn [namespaces_loop]; unfold LastIndex.
    rewrite (cut_last_append _ _ _ Hsl).
    set (A := "/" ++ JoinSlash (rev (y :: l))) in *.
    assert (HA : (0 < String.length A)%nat).
    { unfold A.
      change ("/" ++ JoinSlash (rev (y :: l)))
        with (String "/" (JoinSlash (rev (y :: l)))).
      cbn [String.length]; lia. }
    replace (Z.of_nat (String.length A) =? -1)%Z with false
      by (symmetry; apply Z.eqb_neq; lia).
    replace (Z.of_nat (String.length A) =? 0)%Z with false
      by (symmetry; apply Z.eqb_neq; lia).
    simpl orb; cbv iota.
    rewrite Nat2Z.id, take_append.
    rewrite length_append in Hlen; cbn [String.length] in Hlen.
    unfold A in *; rewrite IH; [|discriminate | exact Hl | lia].
    now rewrite <- app_assoc.
Qed.

Lemma ancestors_accepted (l : list string) :
  real l ->
  Forall (fun ns => ValidatePolicyConfigurationScope ns = errNil)
    (ancestors l).
Proof.
  induction l as [|x l IH]; intros Hall; [constructor|].
  inversion Hall as [|? ? _ Hl]; subst.
  destruct l as [|y l]; [constructor|].
  change (ancestors (x :: y :: l))
    with (("/" ++ JoinSlash (rev (y :: l))) :: ancestors (y :: l)).
  constructor; [|exact (IH Hl)].
  apply real_path_accepted.
  - simpl; intros E; now apply app_eq_nil in E as [_ E].
  - now apply Forall_rev_real.
Qed.

(** For a reference whose resolved path is the root followed by real
    elements, [PolicyConfigurationNamespaces] returns the proper ancestors
    of the path, the nearest first, the root not among them. *)
Theorem namespaces_of_clean_path (r : dirReference) (es : list string) :
  es <> [] -> real es ->
  resolvedPath r = "/" ++ JoinSlash es ->
  PolicyConfigurationNamespaces r = Some (ancestors (rev es)).
Proof.
  intros Hne Hall Hp; unfold PolicyConfigurationNamespaces.
  rewrite Hp, <- (rev_involutive es) at 1 2.
  rewrite (namespaces_loop_clean (rev es)); [reflexivity | | | lia].
  - intros E; apply (f_equal (@rev string)) in E.
    rewrite rev_involutive in E; now apply Hne.
  - now apply Forall_rev_real.
Qed.

Lemma namespaces_of_clean_path_witness :
  PolicyConfigurationNamespaces (mkDirReference "img" "/home/u/img")
  = Some ["/home/u"; "/home"].
Proof.
  apply (namespaces_of_clean_path (mkDirReference "img" "/home/u/img")
           ["home"; "u"; "img"]);
    [discriminate | repeat constructor | reflexivity].
Defined.

(** When the identity of a reference is a scope that
    [ValidatePolicyConfigurationScope] accepts, so is every one of its
    namespaces. *)
Theorem namespaces_of_valid_identity_are_valid (r : dirReference) :
  ValidatePolicyConfigurationScope (PolicyConfigurationIdentity r) = errNil ->
  exists res : list string,
    PolicyConfigurationNamespaces r = Some res
    /\ Forall (fun ns => ValidatePolicyConfigurationScope ns = errNil) res.
Proof.
  unfold PolicyConfigurationIdentity; intros Hv.
  assert (Hshape : exists es : list string,
             es <> [] /\ real es /\ resolvedPath r = "/" ++ JoinSlash es).
  { revert Hv; unfold ValidatePolicyConfigurationScope.
    rewrite HasPrefix_slash_rooted.
    destruct (Filepath.rooted (resolvedPath r)) eqn:Hr; simpl;
      [|discriminate].
    destruct (String.eqb_spec (resolvedPath r) "/") as [|Hroot];
      [discriminate|].
    destruct (String.eqb_spec (Filepath.Clean (resolvedPath r))
                (resolvedPath r)) as [Hc|]; simpl; [intros _ | discriminate].
    destruct (Clean_rooted_shape _ Hr) as (es & Hall & Hs).
    exists es; rewrite Hc in Hs; repeat split; auto.
    intros ->; now apply Hroot. }
  destruct Hshape as (es & Hne & Hall & Hp).
  exists (ancestors (rev es)); split.
  - unfold PolicyConfigurationNamespaces.
    rewrite Hp, <- (rev_involutive es) at 1 2.
    rewrite (namespaces_loop_clean (rev es)); [reflexivity | | | lia].
    + intros E; apply (f_equal (@rev string)) in E.
      rewrite rev_involutive in E; now apply Hne.
    + now apply Forall_rev_real.
  - now apply ancestors_accepted, Forall_rev_real.
Qed.

Lemma namespaces_of_valid_identity_are_valid_witness :
  exists res : list string,
    PolicyConfigurationNamespaces (mkDirReference "img" "/home/u/img")
      = Some res
    /\ Forall (fun ns => ValidatePolicyConfigurationScope ns = errNil) res.
Proof.
  apply (namespaces_of_valid_identity_are_valid
           (mkDirReference "img" "/home/u/img")).
  reflexivity.
Defined.

Lemma namespaces_loop_descending (fuel : nat) (path : string)
    (res : list string) :
  (String.length path < fuel)%nat ->
  exists tail : list string,
    namespaces_loop fuel path res = Some (res ++ tail)%list
    /\ descending path tail.
Proof.
  revert path res; induction fuel as [|fuel IH]; intros path res Hlen;
    [lia|].
  simpl; unfold LastIndex.
  destruct (cut_last "/" path) as [[l r]|] eqn:Ecut.
  2:{ exists []; rewrite app_nil_r; split; [reflexivity | exact I]. }
  apply cut_last_some in Ecut; subst path.
  replace (Z.of_nat (String.length l) =? -1)%Z with false
    by (symmetry; apply Z.eqb_neq; lia).
  rewrite Nat2Z.id, take_append.
  destruct l as [|a l].
  { exists []; rewrite app_nil_r; split; [reflexivity | exact I]. }
  replace (Z.of_nat (String.length (String a l)) =? 0)%Z with false
    by (symmetry; apply Z.eqb_neq; simpl String.length; lia).
  simpl orb; cbv iota.
  rewrite length_append in Hlen; simpl in Hlen.
  destruct (IH (String a l) (res ++ [String a l])%list) as (tail & -> & Hd);
    [simpl; lia|].
  exists (String a l :: tail); rewrite <- app_assoc; split; [reflexivity|].
  split; [apply HasPrefix_append | split; [|exact Hd]].
  rewrite length_append; simpl; lia.
Qed.

(** The namespaces come in a descending chain: the first is a proper prefix
    of the resolved path, each following one a proper prefix of the one
    before it. *)
Theorem namespaces_descend (r : dirReference) :
  exists res : list string,
    PolicyConfigurationNamespaces r = Some res
    /\ descending (resolvedPath r) res.
Proof.
  exact (namespaces_loop_descending _ (resolvedPath r) []
           (Nat.lt_succ_diag_r _)).
Qed.

(** *** The files of a directory reference *)

Lemma tar_is_not_manifest (t : string) : t ++ ".tar" <> "manifest.json".
Proof.
  intros H.
  assert (Hlen : String.length t = 9%nat).
  { apply (f_equal String.length) in H.
    rewrite length_append in H; simpl in H; lia. }
  do 10 (destruct t as [|? t]; [simpl in Hlen; try lia|]);
    [|simpl in Hlen; lia].
  simpl in H; discriminate.
Qed.

Lemma tar_is_not_signature (t : string) (z : Z) :
  t ++ ".tar" <> "signature-" ++ fmt_d z.
Proof.
  intros H.
  assert (Hdot : contains "." (t ++ ".tar") = true)
    by (rewrite contains_append; apply orb_true_r).
  rewrite H, contains_append in Hdot.
  apply orb_prop in Hdot as [Hdot|Hdot]; [discriminate|].
  apply fmt_d_chars in Hdot; discriminate.
Qed.

Lemma wrap_int_inj (a b : Z) :
  in_int a -> in_int b -> wrap_int (a + 1) = wrap_int (b + 1) -> a = b.
Proof.
  unfold in_int, wrap_int; intros Ha Hb H.
  assert (Hm : ((a + 1 + 2 ^ 63) mod 2 ^ 64 = (b + 1 + 2 ^ 63) mod 2 ^ 64)%Z)
    by lia.
  pose proof (Z.div_mod (a + 1 + 2 ^ 63) (2 ^ 64)) as Da.
  pose proof (Z.div_mod (b + 1 + 2 ^ 63) (2 ^ 64)) as Db.
  rewrite Hm in Da.
  lia.
Qed.

(** Under a clean path the manifest, the layers and the signatures are
    different files, and two signature indices never share a file. *)
Theorem layout_files_are_distinct (r : dirReference) :
  Filepath.Clean (path r) = path r -> path r <> "." -> path r <> "/" ->
  (forall digest : string,
      contains "/" digest = false -> layerPath r digest <> manifestPath r)
  /\ (forall index : Z, signaturePath r index <> manifestPath r)
  /\ (forall (digest : string) (index : Z),
        contains "/" digest = false ->
        layerPath r digest <> signaturePath r index)
  /\ (forall i j : Z,
        in_int i -> in_int j ->
        signaturePath r i = signaturePath r j -> i = j).
Proof.
  intros Hc Hdot Hroot.
  assert (Hm : manifestPath r = path r ++ "/" ++ "manifest.json")
    by (apply Join_clean_real; auto).
  assert (Hl : forall d, contains "/" d = false ->
               layerPath r d
               = path r ++ "/" ++ (TrimPrefix d "sha256:" ++ ".tar")).
  { intros d Hd; apply Join_clean_real; auto.
    now apply DirectoryFacts.layer_name_real. }
  assert (Hs : forall i,
               signaturePath r i
               = path r ++ "/" ++ ("signature-" ++ fmt_d (wrap_int (i + 1)))).
  { intros i; apply Join_clean_real; auto.
    apply DirectoryFacts.signature_name_real. }
  repeat split.
  - intros d Hd E; rewrite (Hl d Hd), Hm in E.
    apply append_cancel_l, (append_cancel_l "/") in E.
    exact (tar_is_not_manifest _ E).
  - intros i E; rewrite Hs, Hm in E.
    apply append_cancel_l, (append_cancel_l "/") in E; discriminate.
  - intros d i Hd E; rewrite (Hl d Hd), Hs in E.
    apply append_cancel_l, (append_cancel_l "/") in E.
    exact (tar_is_not_signature _ _ E).
  - intros i j Hi Hj E; rewrite !Hs in E.
    apply append_cancel_l, (append_cancel_l "/"),
      (append_cancel_l "signature-"), fmt_d_inj in E.
    exact (wrap_int_inj i j Hi Hj E).
Qed.

Lemma layout_files_are_distinct_witness :
  layerPath (mkDirReference "/tmp/d" "/tmp/d") "sha256:0123abcd"
  <> signaturePath (mkDirReference "/tmp/d" "/tmp/d") 0.
Proof.
  destruct (layout_files_are_distinct (mkDirReference "/tmp/d" "/tmp/d"))
    as (_ & _ & H & _);
    [reflexivity | discriminate | discriminate |].
  exact (H "sha256:0123abcd" 0%Z eq_refl).
Defined.

(** Two digests share a layer file exactly when they are equal once a
    leading [sha256:] is taken off; so a digest and its bare hex part name
    the same file. *)
Theorem layer_files_coincide_exactly (r : dirReference) (d1 d2 : string) :
  Filepath.Clean (path r) = path r -> path r <> "." -> path r <> "/" ->
  contains "/" d1 = false -> contains "/" d2 = false ->
  (layerPath r d1 = layerPath r d2 <->
   TrimPrefix d1 "sha256:" = TrimPrefix d2 "sha256:")
  /\ (HasPrefix d1 "sha256:" = false ->
      layerPath r ("sha256:" ++ d1) = layerPath r d1).
Proof.
  intros Hc Hdot Hroot H1 H2.
  assert (Hl : forall d, contains "/" d = false ->
               layerPath r d
               = path r ++ "/" ++ (TrimPrefix d "sha256:" ++ ".tar")).
  { intros d Hd; apply Join_clean_real; auto.
    now apply DirectoryFacts.layer_name_real. }
  split.
  - rewrite (Hl d1 H1), (Hl d2 H2); split.
    + intros E.
      apply append_cancel_l, (append_cancel_l "/") in E.
      exact (append_cancel_r _ _ _ E).
    + now intros ->.
  - intros Hn.
    rewrite (Hl d1 H1), Hl by (rewrite contains_append, H1; reflexivity).
    rewrite TrimPrefix_append.
    unfold TrimPrefix; now rewrite Hn.
Qed.

Lemma layer_files_coincide_exactly_witness :
  layerPath (mkDirReference "/tmp/d" "/tmp/d") ("sha256:" ++ "0123abcd")
  = layerPath (mkDirReference "/tmp/d" "/tmp/d") "0123abcd".
Proof.
  apply (layer_files_coincide_exactly (mkDirReference "/tmp/d" "/tmp/d")
           "0123abcd" "0123abcd");
    try reflexivity; discriminate.
Defined.

End DirectoryMoreFacts.

(** ** More on the endpoint fallback loop *)

Module InspectMoreFacts.
Import Go Inspect InspectFacts.

Section Loop.

Variable Named : Type.
Variable Named_String : Named -> string.
Variable RepositoryInfo : Type.
Variable RepositoryInfo_Name : RepositoryInfo -> string.
Variable ParseRepositoryInfo : Named -> RepositoryInfo * error.
Variable LookupPullEndpoints : RepositoryInfo -> list APIEndpoint * error.
Variable NoBaseImageSpecifier : string.
Variable Fetch :
  nat -> Context -> v2ManifestFetcher RepositoryInfo -> Named ->
  option imageInspect * error.

Variable ctx : Context.
Variable ref : Named.
Variable ri : RepositoryInfo.
Variable ac : AuthConfig.

Local Abbreviation body := (loop_body Named RepositoryInfo Fetch ctx ref ri ac).
Local Abbreviation loop := (getData_loop Named RepositoryInfo Fetch ctx ref ri ac).
Local Abbreviation new_fetcher ep :=
  (newManifestFetcher RepositoryInfo ep ri ac).
Local Abbreviation finish := (getData_finish Named Named_String ref).
Local Abbreviation getData_in :=
  (getData_in Named Named_String RepositoryInfo RepositoryInfo_Name
     ParseRepositoryInfo LookupPullEndpoints NoBaseImageSpecifier Fetch).
Local Abbreviation well :=
  (returned_well Named RepositoryInfo Fetch ctx ref ri ac).
Local Abbreviation failure :=
  (fallback_failure Named RepositoryInfo Fetch ctx ref ri ac).

(** *** What is returned *)

Lemma well_more_events (evs evs0 evs1 : list event) img err :
  well evs img err -> well (evs0 ++ evs ++ evs1)%list img err.
Proof.
  intros [H|(He & j & ep & f & Hin & Hf & Hfetch)]; [now left | right].
  split; [exact He|]; exists j, ep, f; repeat split; auto.
  apply in_or_app; right; apply in_or_app; now left.
Qed.

Lemma body_returns_well (i : nat) (st : loop_state) (ep : APIEndpoint)
    evs img err :
  body i st ep = (evs, Return img err) -> well evs img err.
Proof.
  unfold loop_body.
  destruct (confirmedV2 st && (Version ep =? APIVersion1)%Z);
    [discriminate|].
  destruct (newManifestFetcher RepositoryInfo ep ri ac) as [f|e] eqn:Hf;
    [|discriminate].
  destruct (Fetch i ctx f ref) as [img0 err0] eqn:Hfetch.
  destruct err0 as [| s | e | inner c]; simpl.
  - intros [= <- <- <-]; right; split; [reflexivity|].
    exists i, ep, f; simpl; auto.
  - destruct (Done ctx i); intros [= <- <- <-]; left; split;
      (discriminate || reflexivity).
  - destruct (Done ctx i); intros [= <- <- <-]; left; split;
      (discriminate || reflexivity).
  - destruct (Done ctx i).
    + intros [= <- <- <-]; left; split; (discriminate || reflexivity).
    + destruct (is_ErrNoSupport inner); simpl; [|discriminate].
      destruct (discardNoSupportErrors st); discriminate.
Qed.

Lemma loop_returns_well (eps : list APIEndpoint) (i : nat) (st : loop_state)
    evs img err :
  loop i st eps = (evs, Return img err) -> well evs img err.
Proof.
  revert i st evs; induction eps as [|ep eps IH]; intros i st evs; simpl;
    [discriminate|].
  destruct (body i st ep) as [evs0 [st0|img0 err0]] eqn:Eb.
  - destruct (loop (S i) st0 eps) as [evs1 c] eqn:El.
    intros [= <- ->].
    apply IH in El.
    rewrite <- (app_nil_r evs1); now apply well_more_events.
  - intros [= <- <- <-]; exact (body_returns_well _ _ _ _ _ _ Eb).
Qed.

(** *** The events *)

Lemma loop_events_in_list (eps : list APIEndpoint) (i : nat)
    (st : loop_state) evs c :
  loop i st eps = (evs, c) ->
  forall ev, In ev evs ->
    (i <= event_index ev)%nat
    /\ nth_error eps (event_index ev - i) = Some (event_endpoint ev).
Proof.
  revert i st evs c; induction eps as [|ep eps IH]; intros i st evs c; simpl.
  - intros [= <- _] ev [].
  - destruct (body i st ep) as [evs0 c0] eqn:Eb.
    assert (H0 : forall ev, In ev evs0 ->
                   event_index ev = i /\ event_endpoint ev = ep).
    { intros ev Hin.
      destruct (body_shape _ _ _ _ _ _ _ _ _ _ _ _ Eb)
        as [(-> & _)|[(-> & _)|(-> & _)]]; simpl in Hin;
        repeat destruct Hin as [Hin|Hin]; subst; simpl; auto;
        contradiction. }
    assert (H0' : forall ev, In ev evs0 ->
                    (i <= event_index ev)%nat
                    /\ nth_error (ep :: eps) (event_index ev - i)
                       = Some (event_endpoint ev)).
    { intros ev Hin; destruct (H0 _ Hin) as [-> ->].
      rewrite Nat.sub_diag; auto. }
    destruct c0 as [st0|img err].
    + destruct (loop (S i) st0 eps) as [evs1 c1] eqn:El.
      intros [= <- <-] ev Hin; apply in_app_or in Hin as [Hin|Hin];
        [exact (H0' _ Hin)|].
      destruct (IH _ _ _ _ El _ Hin) as [Hle Hn]; split; [lia|].
      replace (event_index ev - i)%nat with (S (event_index ev - S i))
        by lia.
      exact Hn.
    + intros [= <- _]; exact H0'.
Qed.

Lemma loop_events_nodup (eps : list APIEndpoint) (i : nat) (st : loop_state)
    evs c :
  loop i st eps = (evs, c) -> NoDup evs.
Proof.
  revert i st evs c; induction eps as [|ep eps IH]; intros i st evs c; simpl.
  - intros [= <- _]; constructor.
  - destruct (body i st ep) as [evs0 c0] eqn:Eb.
    assert (H0 : NoDup evs0
                 /\ forall ev, In ev evs0 -> event_index ev = i).
    { destruct (body_shape _ _ _ _ _ _ _ _ _ _ _ _ Eb)
        as [(-> & _)|[(-> & _)|(-> & _)]]; split;
        try (repeat constructor; simpl; intuition discriminate);
        intros ev Hin; simpl in Hin;
        repeat destruct Hin as [Hin|Hin]; subst; auto; contradiction. }
    destruct H0 as [Hnd Hidx].
    destruct c0 as [st0|img err].
    + destruct (loop (S i) st0 eps) as [evs1 c1] eqn:El.
      intros [= <- <-]; apply NoDup_app; [exact Hnd | exact (IH _ _ _ _ El)|].
      intros ev Hin0 Hin1.
      destruct (loop_events_in_list _ _ _ _ _ El _ Hin1) as [Hle _].
      rewrite (Hidx _ Hin0) in Hle; lia.
    + now intros [= <- _].
Qed.

(** *** A registry without a V2 endpoint *)

Lemma last_default_irrelevant (A : Type) (l : list A) (a d d' : A) :
  last (a :: l) d = last (a :: l) d'.
Proof.
  revert a; induction l as [|b l IH]; intros a; [reflexivity|].
  change (last (b :: l) d = last (b :: l) d'); apply IH.
Qed.

Lemma last_cons_default (A : Type) (a d : A) (l : list A) :
  last (a :: l) d = last l a.
Proof.
  destruct l as [|b l]; [reflexivity|].
  change (last (b :: l) d = last (b :: l) a).
  apply last_default_irrelevant.
Qed.

Lemma loop_without_v2 (eps : list APIEndpoint) (i : nat) (st : loop_state) :
  confirmedV2 st = false ->
  Forall (fun ep => Version ep <> APIVersion2) eps ->
  loop i st eps =
    (map (fun p => EvNewFetcher (fst p) (snd p))
       (combine (seq i (List.length eps)) eps),
     Continue {| lastErr := last (map unknown_version eps) (lastErr st);
                 discardNoSupportErrors := discardNoSupportErrors st;
                 confirmedV2 := false |}).
Proof.
  revert i st; induction eps as [|ep eps IH]; intros i st Hc Hall.
  - destruct st; simpl in *; now subst.
  - inversion Hall as [|? ? Hv Hrest]; subst.
    cbn [getData_loop]; unfold loop_body.
    rewrite Hc, (newManifestFetcher_other _ _ _ _ Hv); simpl andb; cbv iota.
    rewrite IH by (reflexivity || exact Hrest).
    cbn [lastErr discardNoSupportErrors map List.length seq combine fst snd].
    now rewrite last_cons_default.
Qed.

Lemma unknown_version_last_not_nil (eps : list APIEndpoint)
    (ep : APIEndpoint) (d : error) :
  is_nil (last (map unknown_version (ep :: eps)) d) = false.
Proof.
  revert ep; induction eps as [|b eps IH]; intros ep; [reflexivity|].
  exact (IH b).
Qed.

Lemma loop_only_no_support (eps : list APIEndpoint) (i : nat)
    (st : loop_state) :
  discardNoSupportErrors st = false ->
  (forall k ep, nth_error eps k = Some ep ->
     exists e c, failure (i + k)%nat ep e c /\ is_ErrNoSupport e = true) ->
  exists evs st',
    loop i st eps = (evs, Continue st')
    /\ discardNoSupportErrors st' = false.
Proof.
  revert i st; induction eps as [|ep eps IH]; intros i st Hd Hall; simpl.
  - eauto.
  - destruct (Hall 0%nat ep eq_refl) as (e & c & Hf & Hns).
    rewrite Nat.add_0_r in Hf.
    rewrite (body_fallback _ _ _ _ _ _ _ _ st _ _ _ Hf), Hns, Hd; simpl.
    destruct (IH (S i)
                {| lastErr := e; discardNoSupportErrors := false;
                   confirmedV2 := confirmedV2 st || c |})
      as (evs & st' & -> & Hd'); [reflexivity | | eauto].
    intros k ep' Hk; rewrite Nat.add_succ_comm; exact (Hall (S k) ep' Hk).
Qed.

(** *** Skipping *)

Lemma body_confirms (i : nat) (st st' : loop_state) (ep : APIEndpoint) evs :
  body i st ep = (evs, Continue st') ->
  confirmedV2 st' = true ->
  confirmedV2 st = true
  \/ exists f img inner,
       new_fetcher ep = inl f
       /\ Fetch i ctx f ref = (img, fallbackError inner true).
Proof.
  intros Hb Hc'; unfold loop_body in Hb.
  destruct (confirmedV2 st && (Version ep =? APIVersion1)%Z).
  { injection Hb as _ <-; auto. }
  destruct (newManifestFetcher RepositoryInfo ep ri ac) as [f|e] eqn:Hf.
  2:{ injection Hb as _ <-; simpl in Hc'; auto. }
  destruct (Fetch i ctx f ref) as [img err] eqn:Hfetch.
  destruct err as [| s | e | inner c]; simpl in Hb; destruct (Done ctx i);
    try discriminate.
  assert (Hc : confirmedV2 st || c = true).
  { destruct (is_ErrNoSupport inner); simpl in Hb;
      [destruct (discardNoSupportErrors st); simpl in Hb|];
      injection Hb as _ <-; exact Hc'. }
  apply orb_prop in Hc as [Hc| ->]; [now left | right].
  exists f, img, inner; split; [reflexivity | exact Hfetch].
Qed.

Lemma loop_skips_with_evidence (eps : list APIEndpoint) (i : nat)
    (st : loop_state) evs c :
  (confirmedV2 st = true ->
   exists i0 ep0 f img inner,
     (i0 < i)%nat /\ new_fetcher ep0 = inl f
     /\ Fetch i0 ctx f ref = (img, fallbackError inner true)) ->
  loop i st eps = (evs, c) ->
  forall j ep, In (EvSkip j ep) evs ->
    exists i0 ep0 f img inner,
      (i0 < j)%nat /\ new_fetcher ep0 = inl f
      /\ Fetch i0 ctx f ref = (img, fallbackError inner true).
Proof.
  revert i st evs c; induction eps as [|ep eps IH]; intros i st evs c Hev;
    simpl.
  - intros [= <- _] j e [].
  - destruct (body i st ep) as [evs0 c0] eqn:Eb.
    assert (H0 : forall j e, In (EvSkip j e) evs0 ->
                   j = i /\ confirmedV2 st = true).
    { intros j e Hin.
      destruct (body_shape _ _ _ _ _ _ _ _ _ _ _ _ Eb)
        as [(-> & _ & Hc & _)|[(-> & _)|(-> & _)]]; simpl in Hin;
        repeat destruct Hin as [Hin|Hin]; try discriminate;
        try contradiction.
      injection Hin as <- _; auto. }
    assert (H0' : forall j e, In (EvSkip j e) evs0 ->
                    exists i0 ep0 f img inner,
                      (i0 < j)%nat /\ new_fetcher ep0 = inl f
                      /\ Fetch i0 ctx f ref = (img, fallbackError inner true)).
    { intros j e Hin; destruct (H0 _ _ Hin) as [-> Hc]; exact (Hev Hc). }
    destruct c0 as [st0|img err].
    + destruct (loop (S i) st0 eps) as [evs1 c1] eqn:El.
      intros [= <- <-] j e Hin; apply in_app_or in Hin as [Hin|Hin];
        [exact (H0' _ _ Hin)|].
      refine (IH _ _ _ _ _ El _ _ Hin).
      intros Hc0.
      destruct (body_confirms _ _ _ _ _ Eb Hc0)
        as [Hc|(f & img & inner & Hf & Hfetch)].
      * destruct (Hev Hc) as (i0 & ep0 & f & img & inner & Hlt & Hrest).
        exists i0, ep0, f, img, inner; split; [lia | exact Hrest].
      * exists i, ep, f, img, inner; split; [lia | auto].
    + intros [= <- _]; exact H0'.
Qed.

(** *** Further properties of [getData] *)

Lemma getData_in_well (evs : list event)
    (img : option imageInspect) (err : error) :
  fst (ParseRepositoryInfo ref) = ri ->
  getData_in ctx ref ac = (evs, (img, err)) ->
  well evs img err.
Proof.
  unfold Inspect.getData_in; intros Hri.
  destruct (ParseRepositoryInfo ref) as [ri0 e0]; simpl in Hri; subst ri0.
  assert (Hfail : forall e, is_nil e = false ->
                    well [] None e).
  { intros e He; left; split; [intros ->; discriminate | reflexivity]. }
  destruct (is_nil e0) eqn:E0; simpl.
  2:{ intros [= <- <- <-]; now apply Hfail. }
  destruct (is_nil (validateRepoName NoBaseImageSpecifier
                      (RepositoryInfo_Name ri))) eqn:E1; simpl.
  2:{ intros [= <- <- <-]; now apply Hfail. }
  destruct (LookupPullEndpoints ri) as [eps e2].
  destruct (is_nil e2) eqn:E2; simpl.
  2:{ intros [= <- <- <-]; now apply Hfail. }
  destruct (loop 0%nat initial_state eps) as [evs0 [st|img0 err0]] eqn:El.
  - unfold getData_finish.
    destruct (is_nil (lastErr st)) eqn:En; intros [= <- <- <-]; left;
      split; try reflexivity; [discriminate|].
    intros E; rewrite E in En; discriminate.
  - intros [= <- <- <-]; exact (loop_returns_well _ _ _ _ _ _ El).
Qed.

(** Whatever [getData] returns is a failure without a result, or the
    result of a fetch that returned a nil error: there is never a result
    next to an error, and never a nil error without a fetch that
    succeeded. *)
Theorem getData_returns_well (evs : list event)
    (img : option imageInspect) (err : error) :
  fst (ParseRepositoryInfo ref) = ri ->
  getData_in ctx ref ac = (evs, (img, err)) ->
  well evs img err.
Proof. exact (getData_in_well evs img err). Qed.

(** [getData] touches only endpoints of the list [LookupPullEndpoints]
    gave it, each at its own place in the list, and no place twice: no
    event is repeated. *)
Theorem getData_follows_the_endpoint_list (evs : list event)
    (res : option imageInspect * error) :
  fst (ParseRepositoryInfo ref) = ri ->
  getData_in ctx ref ac = (evs, res) ->
  NoDup evs
  /\ forall ev : event,
       In ev evs ->
       nth_error (fst (LookupPullEndpoints ri)) (event_index ev)
       = Some (event_endpoint ev).
Proof.
  unfold Inspect.getData_in; intros Hri.
  destruct (ParseRepositoryInfo ref) as [ri0 e0]; simpl in Hri; subst ri0.
  assert (Hnone : NoDup (@nil event)
                  /\ forall ev : event,
                       In ev [] ->
                       nth_error (fst (LookupPullEndpoints ri))
                         (event_index ev) = Some (event_endpoint ev))
    by (split; [constructor | intros ev []]).
  destruct (is_nil e0); simpl; [|now intros [= <- _]].
  destruct (is_nil (validateRepoName NoBaseImageSpecifier
                      (RepositoryInfo_Name ri))); simpl;
    [|now intros [= <- _]].
  destruct (LookupPullEndpoints ri) as [eps e2]; simpl in *.
  destruct (is_nil e2); simpl; [|now intros [= <- _]].
  destruct (loop 0%nat initial_state eps) as [evs0 c] eqn:El.
  intros Hres.
  assert (evs = evs0) by (destruct c; now injection Hres as <- _).
  subst evs0; split; [exact (loop_events_nodup _ _ _ _ _ El)|].
  intros ev Hin.
  destruct (loop_events_in_list _ _ _ _ _ El _ Hin) as [_ Hn].
  now rewrite Nat.sub_0_r in Hn.
Qed.

(** [getData] skips an endpoint only after an earlier fetch has failed with
    a [fallbackError] that confirms V2. *)
Theorem skips_only_after_v2_confirmed (evs : list event)
    (res : option imageInspect * error) (j : nat) (ep : APIEndpoint) :
  fst (ParseRepositoryInfo ref) = ri ->
  getData_in ctx ref ac = (evs, res) ->
  In (EvSkip j ep) evs ->
  exists (i0 : nat) (ep0 : APIEndpoint)
         (f : v2ManifestFetcher RepositoryInfo)
         (img : option imageInspect) (inner : error),
    (i0 < j)%nat
    /\ new_fetcher ep0 = inl f
    /\ Fetch i0 ctx f ref = (img, fallbackError inner true).
Proof.
  unfold Inspect.getData_in; intros Hri.
  destruct (ParseRepositoryInfo ref) as [ri0 e0]; simpl in Hri; subst ri0.
  destruct (is_nil e0); simpl; [|now intros [= <- _] []].
  destruct (is_nil (validateRepoName NoBaseImageSpecifier
                      (RepositoryInfo_Name ri))); simpl;
    [|now intros [= <- _] []].
  destruct (LookupPullEndpoints ri) as [eps e2].
  destruct (is_nil e2); simpl; [|now intros [= <- _] []].
  destruct (loop 0%nat initial_state eps) as [evs0 c] eqn:El.
  intros Hres Hin.
  assert (evs = evs0) by (destruct c; now injection Hres as <- _).
  subst evs0.
  refine (loop_skips_with_evidence _ _ _ _ _ _ El _ _ Hin).
  discriminate.
Qed.

(** With no V2 endpoint in the list [getData] fetches nothing: it asks for
    a fetcher for every endpoint, V1 ones included, and fails with the
    [unknown version] error of the last endpoint, or with [no endpoints
    found] when the list is empty. *)
Theorem registry_without_v2_fails (endpoints : list APIEndpoint) :
  ParseRepositoryInfo ref = (ri, errNil) ->
  validateRepoName NoBaseImageSpecifier (RepositoryInfo_Name ri) = errNil ->
  LookupPullEndpoints ri = (endpoints, errNil) ->
  Forall (fun ep => Version ep <> APIVersion2) endpoints ->
  getData_in ctx ref ac =
    (map (fun p => EvNewFetcher (fst p) (snd p))
       (combine (seq 0 (List.length endpoints)) endpoints),
     (None,
      last (map unknown_version endpoints)
        (errorString ("no endpoints found for " ++ Named_String ref)))).
Proof.
  intros Hp Hv Hl Hall.
  rewrite (getData_in_unfold _ _ _ _ _ _ _ _ _ _ _ _ _ Hp Hv Hl).
  rewrite (loop_without_v2 endpoints 0 initial_state eq_refl Hall).
  unfold getData_finish; cbn [lastErr initial_state].
  destruct endpoints as [|ep eps]; [reflexivity|].
  rewrite unknown_version_last_not_nil; cbn [map].
  now rewrite (last_default_irrelevant _ _ _ errNil
                 (errorString ("no endpoints found for "
                               ++ Named_String ref))).
Qed.

(** When every endpoint fails with a [fallbackError] around an
    [ErrNoSupport], the context never done, [getData] returns the
    [ErrNoSupport] of the last endpoint. *)
Theorem only_no_support_returns_the_last
    (pre : list APIEndpoint) (ep : APIEndpoint) (inner : error) (c : bool) :
  ParseRepositoryInfo ref = (ri, errNil) ->
  validateRepoName NoBaseImageSpecifier (RepositoryInfo_Name ri) = errNil ->
  LookupPullEndpoints ri = ((pre ++ [ep])%list, errNil) ->
  (forall k ep', nth_error pre k = Some ep' ->
     exists e c', failure k ep' e c' /\ is_ErrNoSupport e = true) ->
  failure (List.length pre) ep inner c ->
  is_ErrNoSupport inner = true ->
  snd (getData_in ctx ref ac) = (None, inner).
Proof.
  intros Hp Hv Hl Hall Hf Hns.
  rewrite (getData_in_unfold _ _ _ _ _ _ _ _ _ _ _ _ _ Hp Hv Hl), loop_app.
  destruct (loop_only_no_support pre 0 initial_state eq_refl Hall)
    as (evs & st & -> & Hd).
  cbn [getData_loop Nat.add].
  rewrite (body_fallback _ _ _ _ _ _ _ _ st _ _ _ Hf), Hns, Hd; simpl.
  unfold getData_finish; simpl.
  destruct inner; try discriminate; reflexivity.
Qed.

End Loop.

Section Command.

Variable Named : Type.
Variable Named_String : Named -> string.
Variable RepositoryInfo : Type.
Variable RepositoryInfo_Name : RepositoryInfo -> string.
Variable ParseRepositoryInfo : Named -> RepositoryInfo * error.
Variable LookupPullEndpoints : RepositoryInfo -> list APIEndpoint * error.
Variable NoBaseImageSpecifier : string.
Variable Fetch :
  nat -> Context -> v2ManifestFetcher RepositoryInfo -> Named ->
  option imageInspect * error.
Variable ParseNamed : string -> Named * error.
Variable Named_Hostname : Named -> string.

Local Abbreviation inspect :=
  (inspect Named Named_String RepositoryInfo RepositoryInfo_Name
     ParseRepositoryInfo LookupPullEndpoints NoBaseImageSpecifier Fetch
     ParseNamed Named_Hostname).

(** [inspect] never returns a result next to an error.  For a reference
    without a hostname it contacts nothing and returns neither a result nor
    an error.  A result it returns is what a fetch returned with a nil
    error, from a fetcher that carries the credentials of [getAuthConfig]:
    the user name and the password when both are given, none otherwise. *)
Theorem inspect_returns_well (c : cliContext) (evs : list event)
    (img : option imageInspect) (err : error) :
  let ref := fst (ParseNamed (First (Args c))) in
  inspect c = (evs, (img, err)) ->
  (err <> errNil -> img = None)
  /\ (snd (ParseNamed (First (Args c))) = errNil ->
      Named_Hostname ref = "" ->
      evs = [] /\ img = None /\ err = errNil)
  /\ (forall x : imageInspect,
        img = Some x ->
        err = errNil
        /\ exists (j : nat) (ep : APIEndpoint),
             In (EvFetch j ep) evs
             /\ Version ep = APIVersion2
             /\ Fetch j Background
                  {| endpoint := ep;
                     authConfig :=
                       if negb (GlobalString c "username" =? "")%string
                          && negb (GlobalString c "password" =? "")%string
                       then {| Username := GlobalString c "username";
                               Password := GlobalString c "password";
                               Email := "antonio.murdaca@gmail.com" |}
                       else {| Username := ""; Password := ""; Email := "" |};
                     repoInfo := fst (ParseRepositoryInfo ref) |}
                  ref
                = (Some x, errNil)).
Proof.
  intros ref0; subst ref0; unfold Inspect.inspect, getAuthConfig.
  destruct (ParseNamed (First (Args c))) as [r e0]; simpl fst; simpl snd.
  destruct (is_nil e0) eqn:E0; simpl.
  2:{ intros [= <- <- <-]; repeat split; auto; try discriminate. }
  set (auth := if negb (GlobalString c "username" =? "")%string
                  && negb (GlobalString c "password" =? "")%string
               then {| Username := GlobalString c "username";
                       Password := GlobalString c "password";
                       Email := "antonio.murdaca@gmail.com" |}
               else {| Username := ""; Password := ""; Email := "" |}).
  assert (Hauth :
    (if negb (GlobalString c "username" =? "")%string
        && negb (GlobalString c "password" =? "")%string
     then ({| Username := GlobalString c "username";
              Password := GlobalString c "password";
              Email := "antonio.murdaca@gmail.com" |}, errNil)
     else ({| Username := ""; Password := ""; Email := "" |}, errNil))
    = (auth, errNil)).
  { unfold auth;
      destruct (negb (GlobalString c "username" =? "")%string
                && negb (GlobalString c "password" =? "")%string);
      reflexivity. }
  rewrite Hauth; simpl.
  destruct (String.eqb_spec (Named_Hostname r) "") as [Hh|Hh]; simpl.
  { intros [= <- <- <-]; repeat split; auto; discriminate. }
  unfold getData.
  destruct (Inspect.getData_in _ _ _ _ _ _ _ _ _ _ _) as [evs0 [ii e1]] eqn:Eg.
  pose proof (getData_in_well _ _ _ _ _ _ _ _ _ _ _ _ _ _ _ eq_refl Eg)
    as Hwell.
  destruct (is_nil e1) eqn:E1; simpl; intros [= <- <- <-].
  - destruct e1; try discriminate.
    split; [congruence|].
    split; [intros _ Hh'; contradiction|].
    intros x Hx; split; [reflexivity|]; subst ii.
    destruct Hwell as [[Hne _]|(_ & j & ep & f & Hin & Hf & Hfetch)];
      [congruence|].
    exists j, ep; split; [exact Hin|].
    pose proof (newManifestFetcher_inl _ _ _ _ _ Hf) as Hv.
    rewrite (newManifestFetcher_v2 _ _ _ _ Hv) in Hf.
    injection Hf as <-; auto.
  - split; [reflexivity|].
    split; [intros _ Hh'; contradiction | discriminate].
Qed.

End Command.

Lemma getData_returns_well_witness :
  returned_well string string (Examples.Fetch Examples.success_tbl)
    Background "example.com/ns/foo" "example.com/ns/foo" Examples.auth
    [EvNewFetcher 0 (Examples.v2 "a"); EvFetch 0 (Examples.v2 "a");
     EvNewFetcher 1 (Examples.v2 "ok"); EvFetch 1 (Examples.v2 "ok")]
    (Some Examples.busybox) errNil.
Proof.
  apply (getData_returns_well string (fun r => r) string (fun r => r)
           (fun r => (r, errNil))
           (fun _ => ([Examples.v2 "a"; Examples.v2 "ok"; Examples.v2 "b"],
                      errNil)) "scratch"
           (Examples.Fetch Examples.success_tbl) Background
           "example.com/ns/foo" "example.com/ns/foo" Examples.auth);
    reflexivity.
Defined.

Lemma getData_follows_the_endpoint_list_witness :
  NoDup
    [EvNewFetcher 0 (Examples.v2 "a"); EvFetch 0 (Examples.v2 "a");
     EvNewFetcher 1 (Examples.v2 "b"); EvFetch 1 (Examples.v2 "b");
     EvSkip 2 (Examples.v1 "c")].
Proof.
  apply (getData_follows_the_endpoint_list string (fun r => r) string
           (fun r => r) (fun r => (r, errNil))
           (fun _ => (Examples.ordering_endpoints, errNil)) "scratch"
           (Examples.Fetch Examples.ordering_tbl) Background
           "example.com/ns/foo" "example.com/ns/foo" Examples.auth
           [EvNewFetcher 0 (Examples.v2 "a"); EvFetch 0 (Examples.v2 "a");
            EvNewFetcher 1 (Examples.v2 "b"); EvFetch 1 (Examples.v2 "b");
            EvSkip 2 (Examples.v1 "c")]
           (None, errorString "manifest unknown"));
    reflexivity.
Defined.

Lemma skips_only_after_v2_confirmed_witness :
  exists (i0 : nat) (ep0 : APIEndpoint) (f : v2ManifestFetcher string)
         (img : option imageInspect) (inner : error),
    (i0 < 2)%nat
    /\ newManifestFetcher string ep0 "example.com/ns/foo" Examples.auth
       = inl f
    /\ Examples.Fetch Examples.ordering_tbl i0 Background f
         "example.com/ns/foo"
       = (img, fallbackError inner true).
Proof.
  apply (skips_only_after_v2_confirmed string (fun r => r) string
           (fun r => r) (fun r => (r, errNil))
           (fun _ => (Examples.ordering_endpoints, errNil)) "scratch"
           (Examples.Fetch Examples.ordering_tbl) Background
           "example.com/ns/foo" "example.com/ns/foo" Examples.auth
           [EvNewFetcher 0 (Examples.v2 "a"); EvFetch 0 (Examples.v2 "a");
            EvNewFetcher 1 (Examples.v2 "b"); EvFetch 1 (Examples.v2 "b");
            EvSkip 2 (Examples.v1 "c")]
           (None, errorString "manifest unknown") 2%nat (Examples.v1 "c"));
    [reflexivity | reflexivity |].
  simpl; auto 10.
Defined.

Lemma registry_without_v2_fails_witness :
  Examples.run_in Background [Examples.v1 "c"; Examples.v1 "d"] []
  = ([EvNewFetcher 0 (Examples.v1 "c"); EvNewFetcher 1 (Examples.v1 "d")],
     (None, errorString "unknown version 1 for registry d")).
Proof.
  apply (registry_without_v2_fails string (fun r => r) string (fun r => r)
           (fun r => (r, errNil))
           (fun _ => ([Examples.v1 "c"; Examples.v1 "d"], errNil)) "scratch"
           (Examples.Fetch []) Background
           "example.com/ns/foo" "example.com/ns/foo" Examples.auth
           [Examples.v1 "c"; Examples.v1 "d"]);
    try reflexivity.
  repeat constructor; discriminate.
Defined.

Lemma only_no_support_returns_the_last_witness :
  snd (Examples.run_in Background [Examples.v2 "a"; Examples.v2 "a2"]
         Examples.no_support_tbl)
  = (None, ErrNoSupport (errorString "v2 gone")).
Proof.
  apply (only_no_support_returns_the_last string (fun r => r) string
           (fun r => r) (fun r => (r, errNil))
           (fun _ => ([Examples.v2 "a"; Examples.v2 "a2"], errNil))
           "scratch" (Examples.Fetch Examples.no_support_tbl) Background
           "example.com/ns/foo" "example.com/ns/foo" Examples.auth
           [Examples.v2 "a"] (Examples.v2 "a2")
           (ErrNoSupport (errorString "v2 gone")) false);
    try reflexivity.
  - intros k ep' Hk; destruct k as [|[|k]]; simpl in Hk; try discriminate.
    injection Hk as <-.
    exists (ErrNoSupport (errorString "v2 not supported")), false.
    split; [|reflexivity].
    do 2 eexists; repeat split; reflexivity.
  - do 2 eexists; repeat split; reflexivity.
Defined.

Lemma inspect_returns_well_witness :
  exists (j : nat) (ep : APIEndpoint),
    In (EvFetch j ep)
      [EvNewFetcher 0 (Examples.v2 "a"); EvFetch 0 (Examples.v2 "a");
       EvNewFetcher 1 (Examples.v2 "ok"); EvFetch 1 (Examples.v2 "ok")]
    /\ Version ep = APIVersion2
    /\ Examples.Fetch Examples.success_tbl j Background
         {| endpoint := ep; authConfig := Examples.credentials;
            repoInfo := "example.com/ns/foo" |} "example.com/ns/foo"
       = (Some Examples.busybox, errNil).
Proof.
  destruct (inspect_returns_well string (fun r => r) string (fun r => r)
              (fun r => (r, errNil))
              (fun _ => ([Examples.v2 "a"; Examples.v2 "ok";
                          Examples.v2 "b"], errNil)) "scratch"
              (Examples.Fetch Examples.success_tbl)
              Examples.ParseNamed Examples.Hostname
              (Examples.cli ["example.com/ns/foo"])
              [EvNewFetcher 0 (Examples.v2 "a"); EvFetch 0 (Examples.v2 "a");
               EvNewFetcher 1 (Examples.v2 "ok");
               EvFetch 1 (Examples.v2 "ok")]
              (Some Examples.busybox) errNil eq_refl)
    as (_ & _ & H).
  exact (proj2 (H Examples.busybox eq_refl)).
Defined.

End InspectMoreFacts.
